(** * Conversation-state management and message navigation of the chat shell

    A shallow embedding of the state logic of
    [src/components/AIAssistant.tsx] (the orchestrator and its conversation
    store), [src/components/ChatWindow.tsx] (thread view: navigation cursor,
    auto-scroll effect, line formatter), [src/components/InputBar.tsx]
    (compose box) and [src/components/ConversationHistory.tsx] (in-place
    rename).

    React state is modelled by explicit state passing: every handler is a
    function from the component state (and the values its closure captured)
    to the next state.  JavaScript strings are sequences of UTF-16 code
    units, numbers that only ever hold array indices are integers. *)

From Stdlib Require Import List ZArith NArith Lia Bool String Ascii.
From Stdlib Require Import DecimalString.
From Stdlib Require Import Permutation.
Import ListNotations.

Set Implicit Arguments.

(** ** JavaScript strings *)

Module JS.

(** A string is its list of UTF-16 code units. *)
Definition jsstring := list N.

(** Source literals that are plain ASCII. *)
Definition lit (s : string) : jsstring :=
  map N_of_ascii (list_ascii_of_string s).

Fixpoint eqb (a b : jsstring) : bool :=
  match a, b with
  | [], [] => true
  | x :: a', y :: b' => N.eqb x y && eqb a' b'
  | _, _ => false
  end.

(** Truthiness of a string value: only the empty string is falsy. *)
Definition truthy (s : jsstring) : bool :=
  match s with [] => false | _ :: _ => true end.

(** Code units matched by [\s] and stripped by [String.prototype.trim]:
    WhiteSpace and LineTerminator of the language definition. *)
Definition is_ws (c : N) : bool :=
  ((9 <=? c) && (c <=? 13) || (c =? 32) || (c =? 160) || (c =? 5760)
   || (8192 <=? c) && (c <=? 8202) || (c =? 8232) || (c =? 8233)
   || (c =? 8239) || (c =? 8287) || (c =? 12288) || (c =? 65279))%N.

(** Code units the regular-expression dot does not match. *)
Definition is_line_terminator (c : N) : bool :=
  ((c =? 10) || (c =? 13) || (c =? 8232) || (c =? 8233))%N.

Fixpoint dropWhile (p : N -> bool) (s : jsstring) : jsstring :=
  match s with
  | [] => []
  | c :: r => if p c then dropWhile p r else s
  end.

Definition trimStart (s : jsstring) : jsstring := dropWhile is_ws s.
Definition trimEnd (s : jsstring) : jsstring := rev (dropWhile is_ws (rev s)).
Definition trim (s : jsstring) : jsstring := trimEnd (trimStart s).

(** [s.startsWith(p)] *)
Fixpoint startsWith (p s : jsstring) : bool :=
  match p, s with
  | [], _ => true
  | x :: p', y :: s' => N.eqb x y && startsWith p' s'
  | _ :: _, [] => false
  end.

(** [s.slice(n)] for a literal [n >= 0]. *)
Definition slice (n : nat) (s : jsstring) : jsstring := skipn n s.

(** [s.substring(0, n)] for a literal [n >= 0]. *)
Definition substring0 (n : nat) (s : jsstring) : jsstring := firstn n s.

(** [s.split(sep)] for a one-unit separator, generalised to a predicate on
    the separating unit: an input without separator is one segment, the
    empty input is one empty segment. *)
Fixpoint split_by (p : N -> bool) (s : jsstring) : list jsstring :=
  match s with
  | [] => [[]]
  | c :: r =>
      if p c then [] :: split_by p r
      else match split_by p r with
           | seg :: segs => (c :: seg) :: segs
           | [] => [[c]]
           end
  end.

Definition split (sep : N) (s : jsstring) : list jsstring :=
  split_by (N.eqb sep) s.

(** [segs.join(sep)] *)
Fixpoint join (sep : jsstring) (segs : list jsstring) : jsstring :=
  match segs with
  | [] => []
  | [seg] => seg
  | seg :: rest => seg ++ sep ++ join sep rest
  end.

(** [s.includes(sub)] *)
Fixpoint includes (sub s : jsstring) : bool :=
  startsWith sub s
  || match s with
     | [] => false
     | _ :: r => includes sub r
     end.

(** [l.slice(start, end)] of an array, for integer arguments: a negative
    index counts from the end, both are clipped to the length. *)
Definition array_slice {A} (start stop : Z) (l : list A) : list A :=
  let n := Z.of_nat (List.length l) in
  let k := if (start <? 0)%Z then Z.max (n + start) 0 else Z.min start n in
  let e := if (stop <? 0)%Z then Z.max (n + stop) 0 else Z.min stop n in
  firstn (Z.to_nat (Z.max (e - k) 0)) (skipn (Z.to_nat k) l).

(** Template interpolation of a non-negative integer, [`${n}`]. *)
Definition of_N (n : N) : jsstring :=
  lit (NilZero.string_of_uint (N.to_uint n)).

Definition space : N := 32.
Definition newline : N := 10.
Definition star : N := 42.
Definition hyphen : N := 45.
Definition backtick : N := 96.
(** U+2022 BULLET, one code unit. *)
Definition bullet : N := 8226.

End JS.

Import JS.

(** ** Data model ([ChatWindow.tsx], [AIAssistant.tsx]) *)

Inductive MessageType := user | assistant.
Inductive MessageStatus := sending | sent | error.

(** Dates are milliseconds since the epoch, the value of [Date.now()]. *)
Abbreviation Date := N (only parsing).

Module Message.
Record t := mk {
  id : jsstring;
  type : MessageType;
  content : jsstring;
  timestamp : Date;
  isTyping : option bool;
  hasAudio : option bool;
  audioUrl : option jsstring;
  status : option MessageStatus
}.

(** [{ ...m, status: st }] *)
Definition with_status (st : MessageStatus) (m : t) : t :=
  mk (id m) (type m) (content m) (timestamp m)
     (isTyping m) (hasAudio m) (audioUrl m) (Some st).
End Message.

Module Conversation.
Record t := mk {
  id : jsstring;
  title : jsstring;
  timestamp : Date;
  isPinned : bool;
  preview : jsstring;
  messages : list Message.t
}.

Definition with_messages (ms : list Message.t) (c : t) : t :=
  mk (id c) (title c) (timestamp c) (isPinned c) (preview c) ms.
Definition with_title (ttl : jsstring) (c : t) : t :=
  mk (id c) ttl (timestamp c) (isPinned c) (preview c) (messages c).
Definition toggle_pin (c : t) : t :=
  mk (id c) (title c) (timestamp c) (negb (isPinned c)) (preview c)
     (messages c).
End Conversation.

(** ** Orchestrator ([AIAssistant.tsx]) *)

Module AIAssistant.

Record Toast := mkToast {
  toast_title : jsstring;
  toast_description : jsstring;
  toast_destructive : bool
}.

(** The [useState] cells of the component that the handlers touch; the
    toasts shown so far are kept as a log. *)
Record State := mkState {
  conversations : list Conversation.t;
  activeConversationId : option jsstring;
  isHistoryOpen : bool;
  isLoading : bool;
  toasts : list Toast
}.

Definition set_conversations (cs : list Conversation.t) (s : State) :=
  mkState cs (activeConversationId s) (isHistoryOpen s) (isLoading s)
          (toasts s).
Definition set_active (a : option jsstring) (s : State) :=
  mkState (conversations s) a (isHistoryOpen s) (isLoading s) (toasts s).
Definition set_historyOpen (b : bool) (s : State) :=
  mkState (conversations s) (activeConversationId s) b (isLoading s)
          (toasts s).
Definition set_loading (b : bool) (s : State) :=
  mkState (conversations s) (activeConversationId s) (isHistoryOpen s) b
          (toasts s).
Definition toast (t : Toast) (s : State) :=
  mkState (conversations s) (activeConversationId s) (isHistoryOpen s)
          (isLoading s) (toasts s ++ [t]).

Definition initial : State := mkState [] None false false [].

Definition default_title : jsstring := lit "New Conversation".

(** [conversations.find(c => c.id === id)] *)
Definition find_conversation (id : jsstring) (cs : list Conversation.t)
  : option Conversation.t :=
  find (fun c => JS.eqb (Conversation.id c) id) cs.

(** [conversations.find(c => c.id === activeConversationId)]: a [null]
    id is strictly equal to no string. *)
Definition activeConversation (s : State) : option Conversation.t :=
  match activeConversationId s with
  | Some a => find_conversation a (conversations s)
  | None => None
  end.

(** [activeConversation?.messages || []] *)
Definition messages (s : State) : list Message.t :=
  match activeConversation s with
  | Some c => Conversation.messages c
  | None => []
  end.

(** The [useEffect] keyed on [conversations.length]. *)
Definition bootstrapEffect (now : Date) (s : State) : State :=
  match conversations s with
  | [] =>
      let defaultConversation :=
        Conversation.mk (lit "default") default_title now false
                        (lit "Welcome to AI Assistant") [] in
      set_active (Some (lit "default"))
                 (set_conversations [defaultConversation] s)
  | _ :: _ => s
  end.

(** [prev.map(conv => conv.id === id ? f(conv) : conv)], the shape of
    every by-id updater. *)
Definition map_by_id (id : jsstring) (f : Conversation.t -> Conversation.t)
  (prev : list Conversation.t) : list Conversation.t :=
  map (fun conv => if JS.eqb (Conversation.id conv) id then f conv else conv)
      prev.

Definition updateConversationMessages (conversationId : jsstring)
  (newMessages : list Message.t) (s : State) : State :=
  set_conversations
    (map_by_id conversationId (Conversation.with_messages newMessages)
               (conversations s)) s.

Definition generateTitle (message : jsstring) : jsstring :=
  let words := firstn 4 (split space message) in
  join [space] words
    ++ (if (4 <? List.length (split space message))%nat then lit "..." else []).

Definition updateConversationMetadata (now : Date)
  (conversationId lastMessage : jsstring) (s : State) : State :=
  set_conversations
    (map_by_id conversationId
       (fun conv =>
          Conversation.mk
            (Conversation.id conv)
            (if JS.eqb (Conversation.title conv) default_title
             then generateTitle lastMessage else Conversation.title conv)
            now
            (Conversation.isPinned conv)
            (substring0 50 lastMessage
               ++ (if (50 <? List.length lastMessage)%nat then lit "..." else []))
            (Conversation.messages conv))
       (conversations s)) s.

Definition createNewConversation (now : Date) (s : State) : State :=
  let newConversation :=
    Conversation.mk (lit "conv-" ++ of_N now) default_title now false
                    (lit "Start a new conversation") [] in
  toast (mkToast (lit "New Conversation") (lit "Started a new conversation")
                 false)
    (set_historyOpen false
       (set_active (Some (Conversation.id newConversation))
          (set_conversations (newConversation :: conversations s) s))).

Definition selectConversation (id : jsstring) (s : State) : State :=
  set_historyOpen false (set_active (Some id) s).

Definition renameConversation (id newTitle : jsstring) (s : State) : State :=
  set_conversations
    (map_by_id id (Conversation.with_title newTitle) (conversations s)) s.

(** [filtered[0]?.id || null] *)
Definition first_id_or_null (filtered : list Conversation.t)
  : option jsstring :=
  match filtered with
  | c :: _ =>
      if truthy (Conversation.id c) then Some (Conversation.id c) else None
  | [] => None
  end.

(** [id === activeConversationId] *)
Definition is_active (id : jsstring) (s : State) : bool :=
  match activeConversationId s with
  | Some a => JS.eqb id a
  | None => false
  end.

Definition deleteConversation (id : jsstring) (s : State) : State :=
  let filtered :=
    filter (fun conv => negb (JS.eqb (Conversation.id conv) id))
           (conversations s) in
  let s1 := if is_active id s
            then set_active (first_id_or_null filtered) s else s in
  toast (mkToast (lit "Conversation Deleted")
                 (lit "The conversation has been removed") false)
    (set_conversations filtered s1).

Definition pinConversation (id : jsstring) (s : State) : State :=
  set_conversations
    (map_by_id id Conversation.toggle_pin (conversations s)) s.

Definition handleClearHistory (s : State) : State :=
  set_active None (set_conversations [] s).

(** *** [handleSendMessage] and [callAI]

    [handleSendMessage] is an [async] function: it runs up to the [await],
    leaves a 100 ms timer behind, and continues when the call settles.
    The two continuations close over the values read at call time, which
    [SendClosure] records.  The clock is read once per run of a handler. *)

(** What the [fetch] inside [callAI] can do: reject, answer with a
    non-2xx status, or answer with a body in which
    [candidates?.[0]?.content?.parts?.[0]?.text] is a string or missing. *)
Inductive FetchOutcome :=
| FetchRejects
| FetchNotOk (httpStatus : N)
| FetchOk (text : option jsstring).

(** [Some r] when the promise resolves with [r], [None] when it throws. *)
Definition callAI (o : FetchOutcome) : option jsstring :=
  match o with
  | FetchRejects => None
  | FetchNotOk _ => None
  | FetchOk (Some text) =>
      if truthy text then Some text
      else Some (lit "Sorry, I could not generate a response.")
  | FetchOk None => Some (lit "Sorry, I could not generate a response.")
  end.

Record SendClosure := mkClosure {
  cl_conversationId : jsstring;
  cl_messages : list Message.t;
  cl_userMessage : Message.t;
  cl_content : jsstring
}.

(** Lines 80-101: the guard, the optimistic insert, [setIsLoading(true)]. *)
Definition handleSendMessage_start (now : Date) (content : jsstring)
  (s : State) : State * option SendClosure :=
  match activeConversationId s with
  | None => (s, None)
  | Some a =>
      if negb (truthy a) || negb (truthy (trim content)) then (s, None)
      else
        let userMessage :=
          Message.mk (lit "user-" ++ of_N now) user (trim content) now
                     None None None (Some sending) in
        (set_loading true
           (updateConversationMessages a (messages s ++ [userMessage]) s),
         Some (mkClosure a (messages s) userMessage content))
  end.

(** Lines 94-99: the body of the [setTimeout] callback. *)
Definition handleSendMessage_timeout (cl : SendClosure) (s : State) : State :=
  updateConversationMessages (cl_conversationId cl)
    (cl_messages cl ++ [Message.with_status sent (cl_userMessage cl)]) s.

(** Lines 103-137: what runs once [callAI] has settled. *)
Definition handleSendMessage_settled (now : Date) (cl : SendClosure)
  (o : FetchOutcome) (s : State) : State :=
  set_loading false
    match callAI o with
    | Some aiResponse =>
        let assistantMessage :=
          Message.mk (lit "assistant-" ++ of_N now) assistant aiResponse now
                     None None None None in
        updateConversationMetadata now (cl_conversationId cl) (cl_content cl)
          (updateConversationMessages (cl_conversationId cl)
             (cl_messages cl
                ++ [Message.with_status sent (cl_userMessage cl);
                    assistantMessage]) s)
    | None =>
        toast (mkToast (lit "Failed to send message")
                 (lit "There was an error communicating with the AI. Please try again.")
                 true)
          (updateConversationMessages (cl_conversationId cl)
             (cl_messages cl
                ++ [Message.with_status error (cl_userMessage cl)]) s)
    end.

(** The event loop runs the two continuations in either order. *)
Inductive Schedule := TimeoutFirst | SettleFirst.

(** One whole round trip of [handleSendMessage], nothing else
    interleaved: [t0] is the clock at the call, [t1] when the call
    settles. *)
Definition sendMessage (sched : Schedule) (t0 t1 : Date)
  (content : jsstring) (o : FetchOutcome) (s : State) : State :=
  match handleSendMessage_start t0 content s with
  | (s1, None) => s1
  | (s1, Some cl) =>
      match sched with
      | TimeoutFirst =>
          handleSendMessage_settled t1 cl o (handleSendMessage_timeout cl s1)
      | SettleFirst =>
          handleSendMessage_timeout cl (handleSendMessage_settled t1 cl o s1)
      end
  end.

(** The state at the moment the settled continuation returns, whether or
    not the timer has fired by then. *)
Definition sendMessage_at_settle (timerFired : bool) (t0 t1 : Date)
  (content : jsstring) (o : FetchOutcome) (s : State) : State :=
  match handleSendMessage_start t0 content s with
  | (s1, None) => s1
  | (s1, Some cl) =>
      handleSendMessage_settled t1 cl o
        (if timerFired then handleSendMessage_timeout cl s1 else s1)
  end.

(** *** The by-id mutations of the store *)

Inductive ByIdMutation :=
| ReplaceMessages (newMessages : list Message.t)
| Rename (newTitle : jsstring)
| TogglePin
| UpdateMetadata (now : Date) (lastMessage : jsstring).

Definition mutate (m : ByIdMutation) (id : jsstring) (s : State) : State :=
  match m with
  | ReplaceMessages newMessages => updateConversationMessages id newMessages s
  | Rename newTitle => renameConversation id newTitle s
  | TogglePin => pinConversation id s
  | UpdateMetadata now lastMessage =>
      updateConversationMetadata now id lastMessage s
  end.

(** *** Store operations of the conversation browser *)

Inductive StoreOp :=
| OpPin (id : jsstring)
| OpDelete (id : jsstring)
| OpRename (id newTitle : jsstring).

Definition apply_op (op : StoreOp) (s : State) : State :=
  match op with
  | OpPin id => pinConversation id s
  | OpDelete id => deleteConversation id s
  | OpRename id newTitle => renameConversation id newTitle s
  end.

Definition apply_ops (ops : list StoreOp) (s : State) : State :=
  fold_left (fun st op => apply_op op st) ops s.

(** The active-conversation invariant. *)
Definition active_invariant (s : State) : Prop :=
  (activeConversationId s <> None <-> conversations s <> [])
  /\ (forall a, activeConversationId s = Some a ->
               exists c, In c (conversations s) /\ Conversation.id c = a).

(** Every identifier the component makes up is a non-empty string. *)
Definition ids_truthy (cs : list Conversation.t) : Prop :=
  Forall (fun c => Conversation.id c <> []) cs.

End AIAssistant.

(** ** Thread view ([ChatWindow.tsx], the revision with navigation) *)

Module ChatWindow.

(** The two [useState] cells of the view. *)
Record View := mkView {
  currentMessageIndex : option Z;
  isNavigationMode : bool
}.

Definition follow : View := mkView None false.

Inductive Direction := up | down.

(** What the view asks of the scroll container. *)
Inductive Scroll :=
| ScrollToBottom
| ScrollToMessage (messageId : jsstring).

Definition navigateToMessage (messages : list Message.t)
  (direction : Direction) (v : View) : View :=
  let len := Z.of_nat (List.length messages) in
  if (len =? 0)%Z then v
  else match currentMessageIndex v with
       | None => mkView (Some (len - 1)%Z) true
       | Some i =>
           let newIndex :=
             match direction with
             | up => Z.max 0 (i - 1)
             | down => Z.min (len - 1) (i + 1)
             end in
           mkView (Some newIndex) (isNavigationMode v)
       end.

Definition exitNavigationMode (v : View) : View * list Scroll :=
  (mkView None false, [ScrollToBottom]).

(** [messages[i]] for an integer [i]. *)
Definition at_index (messages : list Message.t) (i : Z) : option Message.t :=
  if (i <? 0)%Z then None else nth_error messages (Z.to_nat i).

(** Body of the effect keyed on [[messages, isTyping, isNavigationMode]]. *)
Definition autoScrollEffect (v : View) : list Scroll :=
  if negb (isNavigationMode v) then [ScrollToBottom] else [].

(** Body of the effect keyed on
    [[currentMessageIndex, isNavigationMode, messages]]; the element
    [message-<id>] exists for every rendered message. *)
Definition scrollToCurrentEffect (messages : list Message.t) (v : View)
  : list Scroll :=
  match currentMessageIndex v with
  | Some i =>
      if isNavigationMode v then
        match at_index messages i with
        | Some m =>
            if truthy (Message.id m) then [ScrollToMessage (Message.id m)]
            else []
        | None => []
        end
      else []
  | None => []
  end.

(** The component between two renders: its props and its state. *)
Record Component := mkComponent {
  messages : list Message.t;
  isTyping : bool;
  view : View
}.

Inductive Event :=
| MessagesChanged (newMessages : list Message.t)
| TypingToggled
| NavigateClicked (direction : Direction)
| ExitClicked.

Definition index_changed (a b : option Z) : bool :=
  match a, b with
  | None, None => false
  | Some x, Some y => negb (x =? y)%Z
  | _, _ => true
  end.

(** One event, the render it causes, and the effects whose dependencies
    changed, in declaration order.  A new [messages] prop is a new array. *)
Definition step (c : Component) (e : Event) : Component * list Scroll :=
  match e with
  | MessagesChanged ms =>
      (mkComponent ms (isTyping c) (view c),
       autoScrollEffect (view c) ++ scrollToCurrentEffect ms (view c))
  | TypingToggled =>
      (mkComponent (messages c) (negb (isTyping c)) (view c),
       autoScrollEffect (view c))
  | NavigateClicked d =>
      let v' := navigateToMessage (messages c) d (view c) in
      let modeChanged :=
        negb (Bool.eqb (isNavigationMode (view c)) (isNavigationMode v')) in
      let cursorChanged :=
        index_changed (currentMessageIndex (view c))
                      (currentMessageIndex v') in
      (mkComponent (messages c) (isTyping c) v',
       (if modeChanged then autoScrollEffect v' else [])
         ++ (if cursorChanged || modeChanged
             then scrollToCurrentEffect (messages c) v' else []))
  | ExitClicked =>
      let '(v', out) := exitNavigationMode (view c) in
      let modeChanged :=
        negb (Bool.eqb (isNavigationMode (view c)) (isNavigationMode v')) in
      let cursorChanged :=
        index_changed (currentMessageIndex (view c))
                      (currentMessageIndex v') in
      (mkComponent (messages c) (isTyping c) v',
       out ++ (if modeChanged then autoScrollEffect v' else [])
           ++ (if cursorChanged || modeChanged
               then scrollToCurrentEffect (messages c) v' else []))
  end.

(** The events that change the message sequence or the typing flag. *)
Definition is_data_event (e : Event) : bool :=
  match e with
  | MessagesChanged _ | TypingToggled => true
  | _ => false
  end.

(** Run a sequence of events, collecting for each the state it found and
    what it scrolled. *)
Fixpoint run (c : Component) (es : list Event)
  : list (Component * Event * list Scroll) :=
  match es with
  | [] => []
  | e :: es' => (c, e, snd (step c e)) :: run (fst (step c e)) es'
  end.

(** [n] clicks in one direction. *)
Fixpoint navigate_times (messages : list Message.t) (d : Direction)
  (n : nat) (v : View) : View :=
  match n with
  | O => v
  | S k => navigate_times messages d k (navigateToMessage messages d v)
  end.

(** Any sequence of clicks. *)
Definition navigate_all (messages : list Message.t) (ds : list Direction)
  (v : View) : View :=
  fold_left (fun w d => navigateToMessage messages d w) ds v.

(** Stepping up [length - 1] times from the entry position, then down
    once. *)
Definition up_to_top_then_down (messages : list Message.t) : View :=
  navigateToMessage messages down
    (navigate_times messages up (List.length messages - 1)
       (navigateToMessage messages up follow)).

(** *** The line formatter *)

Inductive Segment :=
| Pre (code : jsstring)
| Bullet (text : jsstring)
| Paragraph (html : jsstring).

(** [line.replace(/^[•\-]\s*/, '')] *)
Definition strip_marker (line : jsstring) : jsstring :=
  match line with
  | c :: r =>
      if (c =? bullet)%N || (c =? hyphen)%N then dropWhile is_ws r
      else line
  | [] => []
  end.

(** The lazy group [(.*?)] followed by the closing stars: the group and
    what follows the match, if the match succeeds here. *)
Fixpoint lazy_group (s : jsstring) : option (jsstring * jsstring) :=
  match s with
  | [] => None
  | c :: r =>
      if startsWith [star; star] s then Some ([], skipn 2 s)
      else if is_line_terminator c then None
      else match lazy_group r with
           | Some (g, rest) => Some (c :: g, rest)
           | None => None
           end
  end.

(** [s.replace(/\*\*(.*?)\*\*/g, '<strong>$1</strong>')], scanning left
    to right; every step consumes a code unit, so [fuel] equal to the
    length is never exhausted. *)
Fixpoint replace_bold (fuel : nat) (s : jsstring) : jsstring :=
  match fuel with
  | O => s
  | S f =>
      match s with
      | [] => []
      | c :: r =>
          if startsWith [star; star] s then
            match lazy_group (skipn 2 s) with
            | Some (g, rest) =>
                lit "<strong>" ++ g ++ lit "</strong>" ++ replace_bold f rest
            | None => c :: replace_bold f r
            end
          else c :: replace_bold f r
      end
  end.

Definition boldFormatted (line : jsstring) : jsstring :=
  replace_bold (List.length line) line.

Definition formatLine (line : jsstring) : Segment :=
  if startsWith (lit "```") line then Pre (slice 3 line)
  else if startsWith [bullet] (trim line) || startsWith [hyphen] (trim line)
  then Bullet (strip_marker line)
  else Paragraph (boldFormatted line).

Definition formatMessageContent (content : jsstring) : list Segment :=
  map formatLine (split newline content).

End ChatWindow.

(** The revision of the thread view without navigation: one effect keyed on
    [[messages, isTyping]], no mode, always following. *)
Module ChatWindowPlain.
Definition autoScrollEffect : list ChatWindow.Scroll :=
  [ChatWindow.ScrollToBottom].
End ChatWindowPlain.

(** ** Compose box ([InputBar.tsx]) *)

Module InputBar.

Record State := mkState {
  message : jsstring;
  isListening : bool
}.

(** Returns the next state and the argument of [onSendMessage], if it was
    called. *)
Definition handleSubmit (isLoading : bool) (st : State)
  : State * option jsstring :=
  if truthy (trim (message st)) && negb isLoading
  then (mkState [] (isListening st), Some (trim (message st)))
  else (st, None).

Definition handleKeyDown (isLoading : bool) (keyIsEnter shiftKey : bool)
  (st : State) : State * option jsstring :=
  if keyIsEnter && negb shiftKey then handleSubmit isLoading st
  else (st, None).

Definition handleVoiceTranscription (transcript : jsstring) (st : State)
  : State :=
  mkState (message st ++ (if truthy (message st) then [space] else [])
             ++ transcript) false.

Definition handleTextareaChange (value : jsstring) (st : State) : State :=
  mkState value (isListening st).

(** [handleAudioGenerated]: the argument it passes to [onSendMessage];
    the component state is not touched. *)
Definition handleAudioGenerated (audioUrl script : jsstring) : jsstring :=
  lit "Generated audio script: " ++ script.

(** The [disabled] attributes of the send button and of the text area. *)
Definition sendDisabled (isLoading : bool) (st : State) : bool :=
  negb (truthy (trim (message st))) || isLoading || isListening st.
Definition textareaDisabled (isLoading : bool) (st : State) : bool :=
  isLoading || isListening st.

(** The two ways the user submits.  A disabled control dispatches no
    event to its handler. *)
Inductive SubmitGesture :=
| ClickSend
| PressKey (keyIsEnter shiftKey : bool).

Definition submit (isLoading : bool) (g : SubmitGesture) (st : State)
  : State * option jsstring :=
  match g with
  | ClickSend =>
      if sendDisabled isLoading st then (st, None)
      else handleSubmit isLoading st
  | PressKey keyIsEnter shiftKey =>
      if textareaDisabled isLoading st then (st, None)
      else handleKeyDown isLoading keyIsEnter shiftKey st
  end.

End InputBar.

(** ** Conversation browser ([ConversationHistory.tsx]), in-place rename *)

Module ConversationHistory.

Record State := mkState {
  editingId : option jsstring;
  editTitle : jsstring
}.

Definition handleStartEdit (id currentTitle : jsstring) (st : State)
  : State :=
  mkState (Some id) currentTitle.

(** [editingId && editTitle.trim()] *)
Definition save_guard (st : State) : option jsstring :=
  match editingId st with
  | Some id =>
      if truthy id && truthy (trim (editTitle st)) then Some id else None
  | None => None
  end.

(** [handleSaveEdit] with [onRenameConversation] bound to the
    orchestrator's [renameConversation]. *)
Definition handleSaveEdit (st : State) (app : AIAssistant.State)
  : State * AIAssistant.State :=
  (mkState None [],
   match save_guard st with
   | Some id => AIAssistant.renameConversation id (trim (editTitle st)) app
   | None => app
   end).

Definition handleCancelEdit (st : State) : State := mkState None [].

(** The user picks Rename on conversation [id], types [input] over the
    title, and commits (Enter or blur). *)
Definition rename (id input : jsstring) (app : AIAssistant.State)
  : AIAssistant.State :=
  snd (handleSaveEdit (mkState (Some id) input) app).

(** Reading the title back. *)
Definition title_of (id : jsstring) (app : AIAssistant.State)
  : option jsstring :=
  option_map Conversation.title
    (AIAssistant.find_conversation id (AIAssistant.conversations app)).

End ConversationHistory.

(** ** The title as the specification words it

    A word is a maximal run of code units that are not white space; the
    derived title is the first four words joined by single spaces, followed
    by an ellipsis exactly when a fifth word exists. *)

Module SpecTitle.

Definition words (s : jsstring) : list jsstring :=
  filter truthy (split_by is_ws s).

Definition first_four_words_title (s : jsstring) : jsstring :=
  join [space] (firstn 4 (words s))
    ++ (if (4 <? List.length (words s))%nat then lit "..." else []).

(** Text made of words separated by single plain spaces. *)
Definition single_spaced (s : jsstring) : Prop :=
  Forall (fun c => is_ws c = true -> c = space) s
  /\ Forall (fun w => w <> []) (split space s).

End SpecTitle.

(** ** Sample data *)

Module Sample.
Import AIAssistant.

Definition hello : Message.t :=
  Message.mk (lit "user-1") user (lit "hello") 1%N None None None (Some sent).
Definition hi : Message.t :=
  Message.mk (lit "assistant-2") assistant (lit "hi there") 2%N
             None None None None.

Definition conv_a : Conversation.t :=
  Conversation.mk (lit "conv-10") (lit "Q3 Budget") 10%N false
                  (lit "discuss budget") [hello; hi].
Definition conv_b : Conversation.t :=
  Conversation.mk (lit "conv-20") default_title 20%N true
                  (lit "Start a new conversation") [].
Definition conv_c : Conversation.t :=
  Conversation.mk (lit "default") default_title 5%N false
                  (lit "Welcome to AI Assistant") [].

(** Three conversations, the second one active. *)
Definition store : State :=
  mkState [conv_a; conv_b; conv_c] (Some (lit "conv-20")) false false [].

(** The three-line text [**bold** line], [- item one], [```code]. *)
Definition third_line : jsstring := lit "```code".
Definition formatter_input : jsstring :=
  lit "**bold** line" ++ [newline] ++ lit "- item one" ++ [newline]
    ++ third_line.

(** One conversation, active. *)
Definition single : State :=
  mkState [conv_c] (Some (lit "default")) false false [].
End Sample.

(** ** Conversation browser: search, groups and the drill-down view *)

Module ConversationList.

Section Search.

(** [String.prototype.toLowerCase], the platform's case mapping. *)
Variable toLowerCase : jsstring -> jsstring.

Definition matches (searchQuery : jsstring) (conv : Conversation.t) : bool :=
  includes (toLowerCase searchQuery) (toLowerCase (Conversation.title conv))
  || includes (toLowerCase searchQuery)
              (toLowerCase (Conversation.preview conv)).

Definition filteredConversations (searchQuery : jsstring)
  (conversations : list Conversation.t) : list Conversation.t :=
  filter (matches searchQuery) conversations.

Definition pinnedConversations (searchQuery : jsstring)
  (conversations : list Conversation.t) : list Conversation.t :=
  filter Conversation.isPinned
         (filteredConversations searchQuery conversations).

Definition regularConversations (searchQuery : jsstring)
  (conversations : list Conversation.t) : list Conversation.t :=
  filter (fun conv => negb (Conversation.isPinned conv))
         (filteredConversations searchQuery conversations).

End Search.

End ConversationList.

Module ConversationPreview.

(** The two [useState] cells of the drill-down view. *)
Record State := mkState {
  selectedConversationId : option jsstring;
  currentMessageIndex : Z
}.

Definition initial : State := mkState None 0.

(** [selectedConversationId === id] *)
Definition is_selected (id : jsstring) (st : State) : bool :=
  match selectedConversationId st with
  | Some x => JS.eqb x id
  | None => false
  end.

Definition handleSelectConversation (id : jsstring) (st : State) : State :=
  if is_selected id st then mkState None (currentMessageIndex st)
  else mkState (Some id) 0.

(** [selectedConversation?.messages || []] *)
Definition selectedMessages (conversations : list Conversation.t)
  (st : State) : list Message.t :=
  match selectedConversationId st with
  | Some id =>
      match AIAssistant.find_conversation id conversations with
      | Some c => Conversation.messages c
      | None => []
      end
  | None => []
  end.

Inductive Direction := up | down.

Definition navigateMessage (selected : list Message.t)
  (direction : Direction) (st : State) : State :=
  let len := Z.of_nat (List.length selected) in
  let i := currentMessageIndex st in
  if (len =? 0)%Z then st
  else match direction with
       | up =>
           if (0 <? i)%Z then mkState (selectedConversationId st) (i - 1)
           else st
       | down =>
           if (i <? len - 1)%Z
           then mkState (selectedConversationId st) (i + 1)
           else st
       end.

Definition navigate_all (selected : list Message.t)
  (ds : list Direction) (st : State) : State :=
  fold_left (fun w d => navigateMessage selected d w) ds st.

(** The browser's own [formatMessageContent]: truncation of a context
    message. *)
Definition formatMessageContent (content : jsstring) : jsstring :=
  if (200 <? List.length content)%nat
  then substring0 200 content ++ lit "..."
  else content.

(** [selectedMessages.slice(Math.max(0, currentMessageIndex - 2),
    currentMessageIndex)] *)
Definition contextMessages (selected : list Message.t) (st : State)
  : list Message.t :=
  array_slice (Z.max 0 (currentMessageIndex st - 2)) (currentMessageIndex st)
              selected.

(** [selectedMessages[currentMessageIndex]] *)
Definition currentMessage (selected : list Message.t) (st : State)
  : option Message.t :=
  ChatWindow.at_index selected (currentMessageIndex st).

End ConversationPreview.

(** ** Voice capture ([VoiceInput.tsx]), the result handler *)

Module VoiceInput.

(** One entry of [event.results]: its first alternative's transcript and
    the [isFinal] flag. *)
Record SpeechResult := mkResult {
  transcript : jsstring;
  isFinal : bool
}.

(** The loop of [recognition.onresult]: the two accumulators after the
    entries from [resultIndex] on. *)
Fixpoint accumulate (results : list SpeechResult)
  (finalTranscript interimTranscript : jsstring) : jsstring * jsstring :=
  match results with
  | [] => (finalTranscript, interimTranscript)
  | r :: rest =>
      if isFinal r
      then accumulate rest (finalTranscript ++ transcript r) interimTranscript
      else accumulate rest finalTranscript (interimTranscript ++ transcript r)
  end.

(** What [onresult] displays ([setTranscript]) and what it hands to
    [onTranscription], if anything. *)
Definition onresult (resultIndex : nat) (results : list SpeechResult)
  : jsstring * option jsstring :=
  let '(finalTranscript, interimTranscript) :=
    accumulate (skipn resultIndex results) [] [] in
  (finalTranscript ++ interimTranscript,
   if truthy finalTranscript then Some finalTranscript else None).

(** A result event arriving at the compose box: [onTranscription] is
    [handleVoiceTranscription], [handleStopListening] ends in
    [onStopListening]. *)
Definition deliver (resultIndex : nat) (results : list SpeechResult)
  (st : InputBar.State) : InputBar.State :=
  match snd (onresult resultIndex results) with
  | Some finalTranscript =>
      InputBar.mkState
        (InputBar.message (InputBar.handleVoiceTranscription finalTranscript st))
        false
  | None => st
  end.

End VoiceInput.

(** ** Settings dialog ([SettingsPanel.tsx]), clearing the history *)

Module SettingsPanel.

(** [handleClearHistory]; [confirmed] is the answer of [window.confirm],
    [onClearHistory] is the orchestrator's [handleClearHistory]. *)
Definition handleClearHistory (confirmed : bool) (s : AIAssistant.State)
  : AIAssistant.State :=
  if confirmed
  then AIAssistant.toast
         (AIAssistant.mkToast (lit "History Cleared")
            (lit "All conversation history has been deleted") false)
         (AIAssistant.handleClearHistory s)
  else s.

End SettingsPanel.

(** ** The shell as a whole: what a user can do to the store *)

Module Shell.

Inductive Action :=
| NewChat (now : Date)
| SelectItem (i : nat)
| PinItem (i : nat)
| DeleteItem (i : nat)
| RenameItem (i : nat) (input : jsstring)
| ClearHistory (confirmed : bool)
| Render (now : Date)
| Send (sched : AIAssistant.Schedule) (t0 t1 : Date) (content : jsstring)
       (o : AIAssistant.FetchOutcome).

(** A gesture on the [i]-th listed conversation calls its handler with that
    conversation's id; there is no item to click beyond the list. *)
Definition on_item (i : nat) (handler : jsstring -> AIAssistant.State
                                       -> AIAssistant.State)
  (s : AIAssistant.State) : AIAssistant.State :=
  match nth_error (AIAssistant.conversations s) i with
  | Some c => handler (Conversation.id c) s
  | None => s
  end.

Definition perform (act : Action) (s : AIAssistant.State)
  : AIAssistant.State :=
  match act with
  | NewChat now => AIAssistant.createNewConversation now s
  | SelectItem i => on_item i AIAssistant.selectConversation s
  | PinItem i => on_item i AIAssistant.pinConversation s
  | DeleteItem i => on_item i AIAssistant.deleteConversation s
  | RenameItem i input =>
      on_item i (fun id => ConversationHistory.rename id input) s
  | ClearHistory confirmed => SettingsPanel.handleClearHistory confirmed s
  | Render now => AIAssistant.bootstrapEffect now s
  | Send sched t0 t1 content o =>
      AIAssistant.sendMessage sched t0 t1 content o s
  end.

Definition perform_all (acts : list Action) (s : AIAssistant.State)
  : AIAssistant.State :=
  fold_left (fun st act => perform act st) acts s.

(** Non-empty ids and the active-conversation invariant together. *)
Definition well_formed (s : AIAssistant.State) : Prop :=
  AIAssistant.ids_truthy (AIAssistant.conversations s)
  /\ AIAssistant.active_invariant s.

End Shell.

(** ** Writes keyed by a conversation id *)

Module StoreFrame.

(** [s'] differs from [s] at most in conversations whose id is [a], and
    keeps every id, every position and the active id. *)
Definition only_touches (a : jsstring) (s s' : AIAssistant.State) : Prop :=
  AIAssistant.activeConversationId s' = AIAssistant.activeConversationId s
  /\ map Conversation.id (AIAssistant.conversations s')
     = map Conversation.id (AIAssistant.conversations s)
  /\ (forall i c,
        nth_error (AIAssistant.conversations s) i = Some c ->
        Conversation.id c <> a ->
        nth_error (AIAssistant.conversations s') i = Some c).


End StoreFrame.

(** * Properties *)

Unset Implicit Arguments.

(** ** Strings *)

Lemma eqb_eq (a b : jsstring) : JS.eqb a b = true <-> a = b.
Proof.
  revert b; induction a as [|x a IH]; intros [|y b]; simpl; split;
    try congruence; try reflexivity.
  - intros H. apply andb_true_iff in H as [Hx Hr].
    apply N.eqb_eq in Hx. apply IH in Hr. congruence.
  - intros H. injection H as -> ->.
    rewrite N.eqb_refl. simpl. now apply IH.
Qed.

Lemma eqb_refl (a : jsstring) : JS.eqb a a = true.
Proof. now apply eqb_eq. Qed.

Lemma eqb_neq (a b : jsstring) : JS.eqb a b = false <-> a <> b.
Proof.
  split.
  - intros H E. apply eqb_eq in E. congruence.
  - intros H. destruct (JS.eqb a b) eqn:E; [|reflexivity].
    apply eqb_eq in E. contradiction.
Qed.

Lemma truthy_true (s : jsstring) : truthy s = true <-> s <> [].
Proof. destruct s; simpl; split; congruence. Qed.

Example split_keeps_empty_segments :
  split space (lit "a  b ") = [lit "a"; []; lit "b"; []].
Proof. reflexivity. Qed.

Example trim_both_ends : trim (lit "  hi  ") = lit "hi".
Proof. reflexivity. Qed.

Example of_N_decimal : of_N 1700 = lit "1700".
Proof. reflexivity. Qed.

(** ** The by-id updater *)

Section MapById.
Import AIAssistant.

Variable id : jsstring.
Variable f : Conversation.t -> Conversation.t.

Lemma map_by_id_length prev :
  List.length (map_by_id id f prev) = List.length prev.
Proof. apply length_map. Qed.

Lemma map_by_id_other prev i c :
  nth_error prev i = Some c -> Conversation.id c <> id ->
  nth_error (map_by_id id f prev) i = Some c.
Proof.
  intros Hn Hne. unfold map_by_id.
  rewrite nth_error_map, Hn. simpl.
  apply eqb_neq in Hne. now rewrite Hne.
Qed.

Lemma map_by_id_target prev i c :
  nth_error prev i = Some c -> Conversation.id c = id ->
  nth_error (map_by_id id f prev) i = Some (f c).
Proof.
  intros Hn He. unfold map_by_id.
  rewrite nth_error_map, Hn. simpl.
  apply eqb_eq in He. now rewrite He.
Qed.

Lemma map_by_id_absent prev :
  (forall c, In c prev -> Conversation.id c <> id) ->
  map_by_id id f prev = prev.
Proof.
  induction prev as [|c prev IH]; intros H; simpl; [reflexivity|].
  assert (Hc : JS.eqb (Conversation.id c) id = false)
    by (apply eqb_neq, H; now left).
  rewrite Hc. f_equal. apply IH. intros c' Hin. apply H. now right.
Qed.

Hypothesis f_id : forall c, Conversation.id (f c) = Conversation.id c.

Lemma map_by_id_ids prev :
  map Conversation.id (map_by_id id f prev) = map Conversation.id prev.
Proof.
  induction prev as [|c prev IH]; simpl; [reflexivity|].
  rewrite IH. f_equal.
  destruct (JS.eqb (Conversation.id c) id); [apply f_id | reflexivity].
Qed.

Lemma map_by_id_find target prev :
  find_conversation target (map_by_id id f prev)
  = option_map (fun c => if JS.eqb (Conversation.id c) id then f c else c)
               (find_conversation target prev).
Proof.
  unfold find_conversation.
  induction prev as [|c prev IH]; simpl; [reflexivity|].
  destruct (JS.eqb (Conversation.id c) id) eqn:E.
  - rewrite f_id. destruct (JS.eqb (Conversation.id c) target); simpl.
    + now rewrite E.
    + apply IH.
  - destruct (JS.eqb (Conversation.id c) target); simpl.
    + now rewrite E.
    + apply IH.
Qed.

End MapById.

(** ** Frame of the by-id mutations *)

Section Frame.
Import AIAssistant.

Lemma mutate_shape m id s :
  exists f, (forall c, Conversation.id (f c) = Conversation.id c)
            /\ mutate m id s
               = set_conversations (map_by_id id f (conversations s)) s.
Proof.
  destruct m; simpl; eexists; (split; [|reflexivity]); reflexivity.
Qed.

Lemma set_conversations_same s : set_conversations (conversations s) s = s.
Proof. now destruct s. Qed.

Lemma find_conversation_none id cs :
  find_conversation id cs = None ->
  forall c, In c cs -> Conversation.id c <> id.
Proof.
  unfold find_conversation. intros H c Hin E.
  apply (find_none _ _ H) in Hin. apply eqb_eq in E. congruence.
Qed.

Lemma find_conversation_some id cs c :
  find_conversation id cs = Some c -> In c cs /\ Conversation.id c = id.
Proof.
  unfold find_conversation. intros H. apply find_some in H as [Hin E].
  split; [assumption | now apply eqb_eq].
Qed.

End Frame.

(** C10. Replacing the message list, renaming, toggling the pin and updating
    the metadata of conversation [id] keep the collection's length, leave
    every conversation with another id as it was, at its position, leave the
    active id alone, and change nothing at all when no conversation has the
    id. *)
Theorem by_id_mutation_frame (m : AIAssistant.ByIdMutation) (id : jsstring)
  (s : AIAssistant.State) :
  List.length (AIAssistant.conversations (AIAssistant.mutate m id s))
  = List.length (AIAssistant.conversations s)
  /\ AIAssistant.activeConversationId (AIAssistant.mutate m id s)
     = AIAssistant.activeConversationId s
  /\ (forall i c,
        nth_error (AIAssistant.conversations s) i = Some c ->
        Conversation.id c <> id ->
        nth_error (AIAssistant.conversations (AIAssistant.mutate m id s)) i
        = Some c)
  /\ (AIAssistant.find_conversation id (AIAssistant.conversations s) = None ->
      AIAssistant.mutate m id s = s).
Proof.
  destruct (mutate_shape m id s) as [f [Hf ->]]. simpl.
  repeat split.
  - apply map_by_id_length.
  - intros i c. apply map_by_id_other.
  - intros Habs. rewrite map_by_id_absent.
    + apply set_conversations_same.
    + now apply find_conversation_none.
Qed.

Lemma by_id_mutation_frame_witness :
  nth_error (AIAssistant.conversations
               (AIAssistant.mutate AIAssistant.TogglePin (lit "conv-10")
                                   Sample.store)) 1
  = Some Sample.conv_b
  /\ AIAssistant.mutate (AIAssistant.Rename (lit "x")) (lit "conv-99")
                        Sample.store
     = Sample.store.
Proof.
  split.
  - apply (proj1 (proj2 (proj2
             (by_id_mutation_frame AIAssistant.TogglePin (lit "conv-10")
                                   Sample.store)))).
    + reflexivity.
    + discriminate.
  - apply (proj2 (proj2 (proj2
             (by_id_mutation_frame (AIAssistant.Rename (lit "x"))
                                   (lit "conv-99") Sample.store)))).
    reflexivity.
Defined.

(** ** The active-conversation invariant *)

Section Invariant.
Import AIAssistant.

Lemma invariant_map_by_id id f s :
  (forall c, Conversation.id (f c) = Conversation.id c) ->
  active_invariant s ->
  active_invariant (set_conversations (map_by_id id f (conversations s)) s).
Proof.
  intros Hf [Hne Hpres]. split; simpl.
  - rewrite Hne. unfold map_by_id.
    destruct (conversations s); simpl; split; congruence.
  - intros a Ha. destruct (Hpres a Ha) as [c [Hin Hid]].
    exists (if JS.eqb (Conversation.id c) id then f c else c). split.
    + unfold map_by_id.
      apply (in_map (fun conv =>
               if JS.eqb (Conversation.id conv) id then f conv else conv)).
      exact Hin.
    + destruct (JS.eqb (Conversation.id c) id); [now rewrite Hf | exact Hid].
Qed.

Lemma ids_truthy_map_by_id id f cs :
  (forall c, Conversation.id (f c) = Conversation.id c) ->
  ids_truthy cs -> ids_truthy (map_by_id id f cs).
Proof.
  intros Hf H. unfold ids_truthy, map_by_id. apply Forall_map.
  eapply Forall_impl; [|exact H]. intros c Hc. simpl in *.
  destruct (JS.eqb (Conversation.id c) id); [now rewrite Hf | exact Hc].
Qed.

Lemma ids_truthy_filter p cs : ids_truthy cs -> ids_truthy (filter p cs).
Proof.
  unfold ids_truthy. rewrite !Forall_forall. intros H c Hin.
  apply filter_In in Hin as [Hin _]. now apply H.
Qed.

Lemma first_id_or_null_truthy c cs :
  ids_truthy (c :: cs) ->
  first_id_or_null (c :: cs) = Some (Conversation.id c).
Proof.
  intros H. inversion H as [|? ? Hc _]; subst. simpl.
  apply truthy_true in Hc. now rewrite Hc.
Qed.

Lemma deleteConversation_conversations id s :
  conversations (deleteConversation id s)
  = filter (fun conv => negb (JS.eqb (Conversation.id conv) id))
           (conversations s).
Proof. unfold deleteConversation. now destruct (is_active id s). Qed.

Lemma deleteConversation_active id s :
  activeConversationId (deleteConversation id s)
  = if is_active id s
    then first_id_or_null
           (filter (fun conv => negb (JS.eqb (Conversation.id conv) id))
                   (conversations s))
    else activeConversationId s.
Proof. unfold deleteConversation. now destruct (is_active id s). Qed.

Lemma is_active_true id s :
  is_active id s = true <-> activeConversationId s = Some id.
Proof.
  unfold is_active. destruct (activeConversationId s) as [a|].
  - rewrite eqb_eq. split; congruence.
  - split; discriminate.
Qed.

Lemma invariant_delete id s :
  ids_truthy (conversations s) -> active_invariant s ->
  active_invariant (deleteConversation id s).
Proof.
  intros Hids [Hne Hpres]. unfold active_invariant.
  rewrite deleteConversation_conversations, deleteConversation_active.
  set (filtered := filter _ (conversations s)).
  destruct (is_active id s) eqn:Hact.
  - destruct filtered as [|c rest] eqn:Hf.
    + simpl. split; [split; congruence | discriminate].
    + assert (Ht : ids_truthy (c :: rest))
        by (rewrite <- Hf; now apply ids_truthy_filter).
      rewrite (first_id_or_null_truthy _ _ Ht). split.
      * split; discriminate.
      * intros a [= <-]. exists c. split; [now left | reflexivity].
  - destruct (activeConversationId s) as [a|] eqn:Ha.
    + destruct (Hpres a eq_refl) as [c [Hin Hid]].
      assert (Hc : In c filtered).
      { apply filter_In. split; [exact Hin|].
        rewrite Hid. unfold is_active in Hact. rewrite Ha in Hact.
        apply eqb_neq in Hact. apply negb_true_iff, eqb_neq. congruence. }
      split.
      * split; [|discriminate]. intros _ E. rewrite E in Hc. inversion Hc.
      * intros a' [= <-]. now exists c.
    + assert (Hnil : conversations s = []).
      { destruct (conversations s); [reflexivity|].
        exfalso. apply (proj2 Hne); [discriminate | reflexivity]. }
      subst filtered. rewrite Hnil. simpl.
      split; [split; congruence | discriminate].
Qed.

Lemma apply_op_ids_truthy op s :
  ids_truthy (conversations s) -> ids_truthy (conversations (apply_op op s)).
Proof.
  destruct op; unfold apply_op; intros H.
  - now apply ids_truthy_map_by_id.
  - rewrite deleteConversation_conversations. now apply ids_truthy_filter.
  - now apply ids_truthy_map_by_id.
Qed.

Lemma apply_op_invariant op s :
  ids_truthy (conversations s) -> active_invariant s ->
  active_invariant (apply_op op s).
Proof.
  destruct op; unfold apply_op; intros Hids Hinv.
  - now apply invariant_map_by_id.
  - now apply invariant_delete.
  - now apply invariant_map_by_id.
Qed.

(** The bootstrap effect restores a non-empty store and keeps the
    invariant, so the property also holds with the re-render counted in. *)
Lemma bootstrapEffect_invariant now s :
  active_invariant s -> active_invariant (bootstrapEffect now s).
Proof.
  intros H. unfold bootstrapEffect.
  destruct (conversations s) eqn:E; [|exact H].
  split; simpl.
  - split; discriminate.
  - intros a [= <-]. eexists. split; [now left | reflexivity].
Qed.

Lemma bootstrapEffect_ids_truthy now s :
  ids_truthy (conversations s) ->
  ids_truthy (conversations (bootstrapEffect now s)).
Proof.
  intros H. unfold bootstrapEffect.
  destruct (conversations s) eqn:E; [|now rewrite E].
  simpl. constructor; [discriminate | constructor].
Qed.

(** The identifiers the component makes up are never the empty string. *)
Lemma createNewConversation_ids_truthy now s :
  ids_truthy (conversations s) ->
  ids_truthy (conversations (createNewConversation now s)).
Proof.
  intros H. unfold createNewConversation.
  cbn [conversations toast set_historyOpen set_active set_conversations].
  constructor; [|exact H].
  cbn [Conversation.id]. discriminate.
Qed.

Lemma sample_store_invariant :
  ids_truthy (conversations Sample.store) /\ active_invariant Sample.store.
Proof.
  split.
  - repeat constructor; discriminate.
  - split.
    + split; discriminate.
    + intros a [= <-]. exists Sample.conv_b. split; [right; now left|].
      reflexivity.
Defined.

End Invariant.

(** Why the identifiers must be truthy: [filtered[0]?.id || null] reads an
    empty identifier as no conversation at all. *)
Remark empty_id_is_read_as_null :
  AIAssistant.first_id_or_null
    [Conversation.mk [] (lit "untitled") 0 false [] []] = None.
Proof. reflexivity. Qed.

(** C3. Starting from a store that satisfies the active-conversation
    invariant and whose identifiers are non-empty strings (as every
    identifier the component creates is), any sequence of pin, unpin, delete
    and rename operations ends in a store that satisfies it: an active id
    exists exactly when the collection is non-empty, and it names a
    conversation of the collection. *)
Theorem store_ops_preserve_invariant (ops : list AIAssistant.StoreOp)
  (s : AIAssistant.State) :
  AIAssistant.ids_truthy (AIAssistant.conversations s) ->
  AIAssistant.active_invariant s ->
  AIAssistant.active_invariant (AIAssistant.apply_ops ops s).
Proof.
  unfold AIAssistant.apply_ops. revert s.
  induction ops as [|op ops IH]; intros s Hids Hinv; simpl; [exact Hinv|].
  apply IH; [now apply apply_op_ids_truthy | now apply apply_op_invariant].
Qed.

Lemma store_ops_preserve_invariant_witness :
  AIAssistant.active_invariant
    (AIAssistant.apply_ops
       [AIAssistant.OpPin (lit "conv-10");
        AIAssistant.OpDelete (lit "conv-20");
        AIAssistant.OpRename (lit "default") (lit "Notes");
        AIAssistant.OpPin (lit "conv-10");
        AIAssistant.OpDelete (lit "conv-10");
        AIAssistant.OpDelete (lit "default")]
       Sample.store).
Proof.
  apply store_ops_preserve_invariant;
    [exact (proj1 sample_store_invariant)
    | exact (proj2 sample_store_invariant)].
Defined.

(** C4. Deleting the active conversation makes the first conversation that
    remains, in the collection's order, the active one and the head of the
    collection; when no conversation remains the active id becomes null and
    the collection is empty. *)
Theorem delete_active_selects_first_remaining (id : jsstring)
  (s : AIAssistant.State) :
  AIAssistant.activeConversationId s = Some id ->
  AIAssistant.ids_truthy (AIAssistant.conversations s) ->
  (forall pre c post,
      AIAssistant.conversations s = pre ++ c :: post ->
      Forall (fun x => Conversation.id x = id) pre ->
      Conversation.id c <> id ->
      AIAssistant.activeConversationId (AIAssistant.deleteConversation id s)
      = Some (Conversation.id c)
      /\ hd_error
           (AIAssistant.conversations (AIAssistant.deleteConversation id s))
         = Some c)
  /\ ((forall c, In c (AIAssistant.conversations s) -> Conversation.id c = id)
      -> AIAssistant.activeConversationId (AIAssistant.deleteConversation id s)
         = None
         /\ AIAssistant.conversations (AIAssistant.deleteConversation id s)
            = []).
Proof.
  intros Hact Hids.
  rewrite deleteConversation_active, deleteConversation_conversations.
  apply is_active_true in Hact. rewrite Hact.
  split.
  - intros pre c post Hsplit Hpre Hc.
    assert (Hf : filter (fun conv => negb (JS.eqb (Conversation.id conv) id))
                        (AIAssistant.conversations s)
                 = c :: filter (fun conv =>
                                  negb (JS.eqb (Conversation.id conv) id)) post).
    { rewrite Hsplit, filter_app. simpl.
      apply eqb_neq in Hc. rewrite Hc. simpl.
      replace (filter _ pre) with (@nil Conversation.t); [reflexivity|].
      clear -Hpre. induction Hpre as [|x pre Hx _ IH]; [reflexivity|].
      simpl. apply eqb_eq in Hx. rewrite Hx. simpl. exact IH. }
    rewrite Hf. split; [|reflexivity].
    apply first_id_or_null_truthy. rewrite <- Hf.
    now apply ids_truthy_filter.
  - intros Hall.
    assert (Hf : filter (fun conv => negb (JS.eqb (Conversation.id conv) id))
                        (AIAssistant.conversations s) = []).
    { clear -Hall. revert Hall.
      generalize (AIAssistant.conversations s) as cs.
      induction cs as [|x cs IH]; intros Hall; [reflexivity|].
      simpl. assert (Hx : JS.eqb (Conversation.id x) id = true)
        by (apply eqb_eq, Hall; now left).
      rewrite Hx. simpl. apply IH. intros c Hin. apply Hall. now right. }
    rewrite Hf. split; reflexivity.
Qed.

Lemma delete_active_selects_first_remaining_witness :
  (AIAssistant.activeConversationId
     (AIAssistant.deleteConversation (lit "conv-20") Sample.store)
   = Some (lit "conv-10")
   /\ hd_error (AIAssistant.conversations
                  (AIAssistant.deleteConversation (lit "conv-20") Sample.store))
      = Some Sample.conv_a)
  /\ (AIAssistant.activeConversationId
        (AIAssistant.deleteConversation (lit "default") Sample.single) = None
      /\ AIAssistant.conversations
           (AIAssistant.deleteConversation (lit "default") Sample.single) = []).
Proof.
  split.
  - apply (proj1 (delete_active_selects_first_remaining
                    (lit "conv-20") Sample.store eq_refl
                    (proj1 sample_store_invariant))
             [] Sample.conv_a [Sample.conv_b; Sample.conv_c]).
    + reflexivity.
    + constructor.
    + discriminate.
  - apply (proj2 (delete_active_selects_first_remaining
                    (lit "default") Sample.single eq_refl
                    ltac:(repeat constructor; discriminate))).
    intros c [<-|[]]. reflexivity.
Defined.

(** ** The navigation cursor *)

Section Cursor.
Import ChatWindow.

Variable messages : list Message.t.
Let len := Z.of_nat (List.length messages).
Hypothesis nonempty : (1 <= List.length messages)%nat.

Lemma len_nonzero : (len =? 0)%Z = false.
Proof. apply Z.eqb_neq. unfold len. lia. Qed.

Lemma navigate_enter d :
  navigateToMessage messages d follow = mkView (Some (len - 1)%Z) true.
Proof.
  unfold navigateToMessage. fold len. now rewrite len_nonzero.
Qed.

Lemma navigate_up i b :
  navigateToMessage messages up (mkView (Some i) b)
  = mkView (Some (Z.max 0 (i - 1))) b.
Proof.
  unfold navigateToMessage. fold len. now rewrite len_nonzero.
Qed.

Lemma navigate_down i b :
  navigateToMessage messages down (mkView (Some i) b)
  = mkView (Some (Z.min (len - 1) (i + 1))) b.
Proof.
  unfold navigateToMessage. fold len. now rewrite len_nonzero.
Qed.

Lemma navigate_times_up n i b :
  (0 <= i)%Z ->
  navigate_times messages up n (mkView (Some i) b)
  = mkView (Some (Z.max 0 (i - Z.of_nat n))) b.
Proof.
  revert i. induction n as [|n IH]; intros i Hi.
  - simpl. f_equal. f_equal. lia.
  - cbn [navigate_times]. rewrite navigate_up, IH by lia.
    f_equal. f_equal. lia.
Qed.

(** In range stays in range, whatever is clicked. *)
Lemma navigate_in_range d i b :
  (0 <= i <= len - 1)%Z ->
  exists j, navigateToMessage messages d (mkView (Some i) b)
            = mkView (Some j) b /\ (0 <= j <= len - 1)%Z.
Proof.
  intros Hi. destruct d.
  - rewrite navigate_up. eexists. split; [reflexivity | lia].
  - rewrite navigate_down. eexists. split; [reflexivity | lia].
Qed.

Lemma navigate_all_in_range ds i b :
  (0 <= i <= len - 1)%Z ->
  exists j, navigate_all messages ds (mkView (Some i) b)
            = mkView (Some j) b /\ (0 <= j <= len - 1)%Z.
Proof.
  unfold navigate_all. revert i.
  induction ds as [|d ds IH]; intros i Hi; simpl.
  - now exists i.
  - destruct (navigate_in_range d i b Hi) as [j [-> Hj]]. now apply IH.
Qed.

End Cursor.

(** C5, as the code has it.  Over a message list of length [N >= 1],
    entering navigation puts the cursor at [N-1]; a step up takes the cursor
    [i] to [max 0 (i-1)], a step down to [min (N-1) (i+1)]; whatever is
    clicked afterwards the cursor stays within [0, N-1]; and stepping up
    [N-1] times then down once leaves it at [min 1 (N-1)], which is 1 for
    [N >= 2] and 0 for a single message. *)
Theorem thread_cursor_navigation (messages : list Message.t) :
  (1 <= List.length messages)%nat ->
  let N := Z.of_nat (List.length messages) in
  ChatWindow.navigateToMessage messages ChatWindow.up ChatWindow.follow
  = ChatWindow.mkView (Some (N - 1)%Z) true
  /\ (forall i b,
        ChatWindow.navigateToMessage messages ChatWindow.up
          (ChatWindow.mkView (Some i) b)
        = ChatWindow.mkView (Some (Z.max 0 (i - 1))) b
        /\ ChatWindow.navigateToMessage messages ChatWindow.down
             (ChatWindow.mkView (Some i) b)
           = ChatWindow.mkView (Some (Z.min (N - 1) (i + 1))) b)
  /\ (forall ds, exists j,
        ChatWindow.navigate_all messages ds
          (ChatWindow.navigateToMessage messages ChatWindow.up
             ChatWindow.follow)
        = ChatWindow.mkView (Some j) true /\ (0 <= j <= N - 1)%Z)
  /\ ChatWindow.currentMessageIndex (ChatWindow.up_to_top_then_down messages)
     = Some (Z.min 1 (N - 1))
  /\ ((2 <= List.length messages)%nat ->
      ChatWindow.currentMessageIndex (ChatWindow.up_to_top_then_down messages)
      = Some 1%Z).
Proof.
  intros Hne N.
  assert (Hup : ChatWindow.up_to_top_then_down messages
                = ChatWindow.mkView (Some (Z.min 1 (N - 1))) true).
  { unfold ChatWindow.up_to_top_then_down.
    rewrite navigate_enter, navigate_times_up, navigate_down by (fold N; lia).
    fold N. f_equal. f_equal. lia. }
  split; [now apply navigate_enter|].
  split; [intros i b; split;
          [now apply navigate_up | now apply navigate_down]|].
  split.
  - intros ds. rewrite navigate_enter by assumption.
    apply navigate_all_in_range; [assumption | fold N; lia].
  - rewrite Hup. simpl. split; [reflexivity|].
    intros H2. f_equal. unfold N. lia.
Qed.

Lemma thread_cursor_navigation_witness :
  ChatWindow.currentMessageIndex
    (ChatWindow.up_to_top_then_down
       [Sample.hello; Sample.hi; Sample.hello; Sample.hi])
  = Some 1%Z.
Proof.
  apply (thread_cursor_navigation
           [Sample.hello; Sample.hi; Sample.hello; Sample.hi]); simpl; lia.
Defined.

(** With a single message the cursor enters at 0, stepping up zero times
    and down once leaves it at 0: it does not return to 1. *)
Lemma cursor_does_not_return_to_one :
  ~ (forall messages : list Message.t,
        (1 <= List.length messages)%nat ->
        ChatWindow.currentMessageIndex
          (ChatWindow.up_to_top_then_down messages) = Some 1%Z).
Proof.
  intros H. specialize (H [Sample.hello] (le_n 1)). discriminate H.
Qed.

(** ** The auto-scroll effect *)

Section AutoScroll.
Import ChatWindow.

Lemma scrollToCurrent_never_bottom ms v :
  ~ In ScrollToBottom (scrollToCurrentEffect ms v).
Proof.
  unfold scrollToCurrentEffect.
  destruct (currentMessageIndex v); [|intros []].
  destruct (isNavigationMode v); [|intros []].
  destruct (at_index ms z); [|intros []].
  destruct (truthy (Message.id t)); [|intros []].
  intros [H|[]]. discriminate H.
Qed.

Lemma autoScroll_bottom_iff v :
  In ScrollToBottom (autoScrollEffect v) <-> isNavigationMode v = false.
Proof.
  unfold autoScrollEffect. destruct (isNavigationMode v); simpl.
  - split; [intros [] | discriminate].
  - split; [reflexivity | now left].
Qed.

Lemma data_event_scroll c e :
  is_data_event e = true ->
  view (fst (step c e)) = view c
  /\ (In ScrollToBottom (snd (step c e))
      <-> isNavigationMode (view c) = false).
Proof.
  destruct e; try discriminate; intros _; simpl; (split; [reflexivity|]).
  - rewrite in_app_iff, autoScroll_bottom_iff. split; [|now left].
    intros [H|H]; [exact H | now apply scrollToCurrent_never_bottom in H].
  - apply autoScroll_bottom_iff.
Qed.

End AutoScroll.

(** The revision without navigation scrolls on every change; it has no
    other mode to be in. *)
Remark plain_view_always_follows :
  ChatWindowPlain.autoScrollEffect = [ChatWindow.ScrollToBottom].
Proof. reflexivity. Qed.

(** C6. When the message sequence is replaced or the typing flag toggles,
    the view's mode is left as it is and the scroll to the newest position is
    issued exactly when the view is not in navigation mode; along any run
    of events, no such change ever scrolls to the bottom while the view it
    finds is navigating. *)
Theorem auto_scroll_only_in_follow (c : ChatWindow.Component) :
  (forall ms,
      ChatWindow.view (fst (ChatWindow.step c (ChatWindow.MessagesChanged ms)))
      = ChatWindow.view c
      /\ (In ChatWindow.ScrollToBottom
            (snd (ChatWindow.step c (ChatWindow.MessagesChanged ms)))
          <-> ChatWindow.isNavigationMode (ChatWindow.view c) = false))
  /\ (ChatWindow.view (fst (ChatWindow.step c ChatWindow.TypingToggled))
      = ChatWindow.view c
      /\ (In ChatWindow.ScrollToBottom
            (snd (ChatWindow.step c ChatWindow.TypingToggled))
          <-> ChatWindow.isNavigationMode (ChatWindow.view c) = false))
  /\ (forall es,
        Forall (fun '(c', e, out) =>
                  ChatWindow.is_data_event e
                  && ChatWindow.isNavigationMode (ChatWindow.view c') = true ->
                  ~ In ChatWindow.ScrollToBottom out)
               (ChatWindow.run c es)).
Proof.
  split; [intros ms; now apply data_event_scroll|].
  split; [now apply data_event_scroll|].
  intros es. revert c. induction es as [|e es IH]; intros c; simpl.
  - constructor.
  - constructor; [|apply IH].
    intros H. apply andb_true_iff in H as [He Hnav].
    destruct (data_event_scroll c e He) as [_ Hiff].
    rewrite Hiff. congruence.
Qed.

(** ** The line formatter *)

Lemma startsWith_prefix p s :
  startsWith p s = true -> s = p ++ skipn (List.length p) s.
Proof.
  revert s. induction p as [|x p IH]; intros s H; [reflexivity|].
  destruct s as [|y s]; [discriminate|].
  cbn [startsWith] in H. apply andb_true_iff in H as [Hx Hr].
  apply N.eqb_eq in Hx. subst y. simpl. f_equal. now apply IH.
Qed.

(** Every fenced line loses exactly its three backticks. *)
Lemma formatLine_fence line :
  startsWith (lit "```") line = true ->
  ChatWindow.formatLine line = ChatWindow.Pre (slice 3 line)
  /\ line = lit "```" ++ slice 3 line.
Proof.
  intros H. unfold ChatWindow.formatLine. rewrite H. split; [reflexivity|].
  exact (startsWith_prefix _ _ H).
Qed.

Lemma lazy_group_rest s g rest :
  ChatWindow.lazy_group s = Some (g, rest) ->
  (List.length rest + 2 <= List.length s)%nat.
Proof.
  revert g rest. induction s as [|c r IH]; intros g rest H; [discriminate|].
  cbn [ChatWindow.lazy_group] in H.
  destruct (startsWith [star; star] (c :: r)) eqn:Hs.
  - injection H as _ <-. destruct r as [|d r'].
    + cbn [startsWith] in Hs. rewrite andb_false_r in Hs. discriminate Hs.
    + simpl. lia.
  - destruct (is_line_terminator c); [discriminate|].
    destruct (ChatWindow.lazy_group r) as [[g' rest']|] eqn:Hr;
      [|discriminate].
    injection H as _ <-. specialize (IH _ _ eq_refl). simpl. lia.
Qed.

(** The scan never runs out of fuel: any fuel at least the length gives the
    result of [boldFormatted]. *)
Lemma replace_bold_fuel f1 f2 s :
  (List.length s <= f1)%nat -> (List.length s <= f2)%nat ->
  ChatWindow.replace_bold f1 s = ChatWindow.replace_bold f2 s.
Proof.
  revert f2 s. induction f1 as [|f1 IH]; intros f2 s H1 H2.
  - destruct s; [|simpl in H1; lia]. now destruct f2.
  - destruct f2 as [|f2]; [destruct s; [reflexivity | simpl in H2; lia]|].
    destruct s as [|c r]; [reflexivity|].
    cbn [ChatWindow.replace_bold]. simpl in H1, H2.
    destruct (startsWith [star; star] (c :: r)) eqn:Hs.
    + destruct (ChatWindow.lazy_group (skipn 2 (c :: r)))
        as [[g rest]|] eqn:Hg.
      * apply lazy_group_rest in Hg.
        assert (Hsk : (List.length (skipn 2 (c :: r)) <= List.length r)%nat)
          by (rewrite length_skipn; simpl; lia).
        do 3 f_equal. apply IH; lia.
      * f_equal. apply IH; lia.
    + f_equal. apply IH; lia.
Qed.

(** C7, as the code has it.  The formatter turns the three-line text into
    exactly three segments: a paragraph whose markup emphasises [bold], a
    bulleted item with text [item one], and a preformatted block with
    content [code]; that content is the third line without its first three
    code units, the three backticks. *)
Theorem formatter_three_segments :
  ChatWindow.formatMessageContent Sample.formatter_input
  = [ChatWindow.Paragraph (lit "<strong>bold</strong> line");
     ChatWindow.Bullet (lit "item one");
     ChatWindow.Pre (lit "code")]
  /\ nth_error (split newline Sample.formatter_input) 2
     = Some Sample.third_line
  /\ lit "code" = slice 3 Sample.third_line
  /\ Sample.third_line = lit "```" ++ lit "code".
Proof. repeat split. Qed.

(** Dropping four leading code units from the third line leaves [ode], not
    the content of the block. *)
Lemma formatter_does_not_strip_four :
  ~ (exists code,
        nth_error (ChatWindow.formatMessageContent Sample.formatter_input) 2
        = Some (ChatWindow.Pre code)
        /\ code = lit "code"
        /\ code = slice 4 Sample.third_line).
Proof.
  intros [code [_ [H1 H2]]]. rewrite H1 in H2. discriminate H2.
Qed.

(** ** The compose box *)

(** The handler alone checks the draft and the loading flag only; that
    nothing is submitted during voice capture is the work of the two
    [disabled] attributes. *)
Remark handleSubmit_alone_ignores_listening :
  InputBar.handleSubmit false (InputBar.mkState (lit " hi ") true)
  = (InputBar.mkState [] true, Some (lit "hi")).
Proof. reflexivity. Qed.

(** C8. Submitting, by the send button or by a key press in the text area,
    changes nothing and sends nothing when the draft trims to the empty
    string, when a request is in flight or when voice capture is active;
    whenever something is sent it is the trimmed draft and the draft
    becomes the empty string; and with none of the three in the way the
    button and a plain Enter do send, while Shift+Enter does not. *)
Theorem submit_guard_and_effect (isLoading : bool) (g : InputBar.SubmitGesture)
  (st : InputBar.State) :
  (trim (InputBar.message st) = [] \/ isLoading = true
   \/ InputBar.isListening st = true ->
   InputBar.submit isLoading g st = (st, None))
  /\ (forall st' text,
        InputBar.submit isLoading g st = (st', Some text) ->
        text = trim (InputBar.message st)
        /\ st' = InputBar.mkState [] (InputBar.isListening st))
  /\ (trim (InputBar.message st) <> [] -> isLoading = false ->
      InputBar.isListening st = false ->
      InputBar.submit isLoading InputBar.ClickSend st
      = (InputBar.mkState [] false, Some (trim (InputBar.message st)))
      /\ InputBar.submit isLoading (InputBar.PressKey true false) st
         = (InputBar.mkState [] false, Some (trim (InputBar.message st)))
      /\ InputBar.submit isLoading (InputBar.PressKey true true) st
         = (st, None)).
Proof.
  destruct st as [message isListening]. simpl.
  unfold InputBar.submit, InputBar.sendDisabled, InputBar.textareaDisabled,
    InputBar.handleKeyDown, InputBar.handleSubmit. simpl.
  destruct (trim message) as [|x t] eqn:Ht; simpl;
    destruct isLoading, isListening; simpl;
    (split; [|split]).
  all: try (intros _; destruct g as [|[] []]; reflexivity).
  all: try (intros st' text H; destruct g as [|[] []]; simpl in H;
            try discriminate H; injection H as <- <-; now split).
  all: try (intros H; try congruence; intros H1 H2; try discriminate;
            repeat split).
  all: intros [H|[H|H]]; discriminate H.
Qed.

Lemma submit_guard_and_effect_witness :
  InputBar.submit false (InputBar.PressKey true false)
    (InputBar.mkState (lit "  hi  ") true)
  = (InputBar.mkState (lit "  hi  ") true, None)
  /\ InputBar.submit false InputBar.ClickSend
       (InputBar.mkState (lit "  hi  ") false)
     = (InputBar.mkState [] false, Some (lit "hi")).
Proof.
  split.
  - apply (proj1 (submit_guard_and_effect false (InputBar.PressKey true false)
                    (InputBar.mkState (lit "  hi  ") true))).
    right. right. reflexivity.
  - apply (proj2 (proj2 (submit_guard_and_effect false InputBar.ClickSend
                           (InputBar.mkState (lit "  hi  ") false))));
      [discriminate | reflexivity | reflexivity].
Defined.

(** ** In-place rename *)

Section RenameRoundTrip.
Import AIAssistant.

Lemma find_map_by_id_target id f cs c :
  (forall x, Conversation.id (f x) = Conversation.id x) ->
  find_conversation id cs = Some c ->
  find_conversation id (map_by_id id f cs) = Some (f c).
Proof.
  intros Hf H. rewrite map_by_id_find, H by exact Hf. simpl.
  apply find_conversation_some in H as [_ E]. apply eqb_eq in E.
  now rewrite E.
Qed.

Lemma rename_guard_passes id input app :
  id <> [] -> trim input <> [] ->
  ConversationHistory.rename id input app
  = renameConversation id (trim input) app.
Proof.
  intros Hid Ht. unfold ConversationHistory.rename,
    ConversationHistory.handleSaveEdit, ConversationHistory.save_guard.
  simpl. apply truthy_true in Hid, Ht. now rewrite Hid, Ht.
Qed.

Lemma rename_guard_rejects id input app :
  trim input = [] -> ConversationHistory.rename id input app = app.
Proof.
  intros Ht. unfold ConversationHistory.rename,
    ConversationHistory.handleSaveEdit, ConversationHistory.save_guard.
  simpl. rewrite Ht. simpl. now rewrite andb_false_r.
Qed.

End RenameRoundTrip.

(** C9. Renaming an existing conversation with an input whose trim is
    non-empty and reading the title back gives exactly the trimmed input; an
    input that trims to the empty string leaves the whole state as it was;
    and a rename never makes any title empty. *)
Theorem rename_round_trip (id input : jsstring) (app : AIAssistant.State) :
  (trim input <> [] -> id <> [] ->
   AIAssistant.find_conversation id (AIAssistant.conversations app) <> None ->
   ConversationHistory.title_of id (ConversationHistory.rename id input app)
   = Some (trim input))
  /\ (trim input = [] -> ConversationHistory.rename id input app = app)
  /\ (Forall (fun c => Conversation.title c <> [])
             (AIAssistant.conversations app) ->
      Forall (fun c => Conversation.title c <> [])
             (AIAssistant.conversations
                (ConversationHistory.rename id input app))).
Proof.
  split; [|split].
  - intros Ht Hid Hfind. rewrite rename_guard_passes by assumption.
    destruct (AIAssistant.find_conversation id (AIAssistant.conversations app))
      as [c|] eqn:Hc; [|contradiction].
    unfold ConversationHistory.title_of, AIAssistant.renameConversation.
    simpl. now rewrite (find_map_by_id_target id _ _ c).
  - apply rename_guard_rejects.
  - intros Hall. destruct (trim input) as [|x t] eqn:Ht.
    + now rewrite rename_guard_rejects.
    + destruct id as [|y id'].
      * unfold ConversationHistory.rename, ConversationHistory.handleSaveEdit,
          ConversationHistory.save_guard. simpl. exact Hall.
      * rewrite rename_guard_passes by (rewrite ?Ht; discriminate).
        unfold AIAssistant.renameConversation, AIAssistant.map_by_id. simpl.
        apply Forall_map. eapply Forall_impl; [|exact Hall].
        intros c Hc. simpl.
        destruct (JS.eqb (Conversation.id c) (y :: id')); simpl;
          [rewrite Ht; discriminate | exact Hc].
Qed.

Lemma rename_round_trip_witness :
  ConversationHistory.title_of (lit "conv-10")
    (ConversationHistory.rename (lit "conv-10") (lit "  Plans  ") Sample.store)
  = Some (lit "Plans")
  /\ ConversationHistory.rename (lit "conv-10") (lit "   ") Sample.store
     = Sample.store.
Proof.
  split.
  - apply (proj1 (rename_round_trip (lit "conv-10") (lit "  Plans  ")
                    Sample.store)); discriminate.
  - apply (proj1 (proj2 (rename_round_trip (lit "conv-10") (lit "   ")
                           Sample.store))).
    reflexivity.
Defined.

(** ** Title derivation *)

Section Title.
Import AIAssistant SpecTitle.

Lemma split_by_ext p q s :
  Forall (fun c => p c = q c) s -> split_by p s = split_by q s.
Proof.
  induction 1 as [|c s Hc _ IH]; simpl; [reflexivity|].
  now rewrite Hc, IH.
Qed.

Lemma filter_all_true {A} (p : A -> bool) l :
  Forall (fun x => p x = true) l -> filter p l = l.
Proof.
  induction 1 as [|x l Hx _ IH]; simpl; [reflexivity|].
  now rewrite Hx, IH.
Qed.

(** On words separated by single spaces the segments of [split(' ')] are
    the words. *)
Lemma words_single_spaced s :
  single_spaced s -> words s = split space s.
Proof.
  intros [Hws Hseg]. unfold words, split.
  rewrite (split_by_ext is_ws (N.eqb space) s).
  - apply filter_all_true. eapply Forall_impl; [|exact Hseg].
    intros w Hw. now apply truthy_true.
  - eapply Forall_impl; [|exact Hws]. intros c Hc. simpl in Hc.
    destruct (is_ws c) eqn:E.
    + rewrite (Hc eq_refl). reflexivity.
    + symmetry. apply N.eqb_neq. intros <-. discriminate E.
Qed.

Lemma generateTitle_single_spaced s :
  single_spaced s -> generateTitle s = first_four_words_title s.
Proof.
  intros H. unfold generateTitle, first_four_words_title.
  now rewrite (words_single_spaced s H).
Qed.

End Title.

(** ** One round trip of [handleSendMessage] *)

Section Send.
Import AIAssistant.

Variables (s : State) (a : jsstring) (c : Conversation.t).
Variables (content : jsstring) (t0 t1 : Date).

Hypothesis active_is_a : activeConversationId s = Some a.
Hypothesis a_truthy : a <> [].
Hypothesis a_present : find_conversation a (conversations s) = Some c.
Hypothesis content_not_blank : trim content <> [].

Let userMessage : Message.t :=
  Message.mk (lit "user-" ++ of_N t0) user (trim content) t0
             None None None (Some sending).
Let cl : SendClosure :=
  mkClosure a (Conversation.messages c) userMessage content.
Let s1 : State :=
  set_loading true
    (updateConversationMessages a (Conversation.messages c ++ [userMessage]) s).

Lemma messages_of_active : messages s = Conversation.messages c.
Proof.
  unfold messages, activeConversation. now rewrite active_is_a, a_present.
Qed.

Lemma handleSendMessage_start_runs :
  handleSendMessage_start t0 content s = (s1, Some cl).
Proof.
  unfold handleSendMessage_start. rewrite active_is_a.
  apply truthy_true in a_truthy, content_not_blank.
  rewrite a_truthy, content_not_blank. simpl.
  now rewrite messages_of_active.
Qed.

(** Every write of the round trip replaces the message list of the
    conversation found under [a], and of no other. *)
Lemma find_after_messages ms st c0 :
  find_conversation a (conversations st) = Some c0 ->
  find_conversation a (conversations (updateConversationMessages a ms st))
  = Some (Conversation.with_messages ms c0).
Proof.
  intros H. unfold updateConversationMessages. simpl.
  now apply find_map_by_id_target.
Qed.

Lemma find_after_start :
  find_conversation a (conversations s1)
  = Some (Conversation.with_messages
            (Conversation.messages c ++ [userMessage]) c).
Proof. unfold s1. simpl. now apply find_map_by_id_target. Qed.

Lemma find_after_timeout st c0 :
  find_conversation a (conversations st) = Some c0 ->
  find_conversation a (conversations (handleSendMessage_timeout cl st))
  = Some (Conversation.with_messages
            (Conversation.messages c
               ++ [Message.with_status sent userMessage]) c0).
Proof. intros H. unfold handleSendMessage_timeout. now apply find_after_messages. Qed.

Lemma find_after_success st c0 o response :
  callAI o = Some response ->
  find_conversation a (conversations st) = Some c0 ->
  find_conversation a (conversations (handleSendMessage_settled t1 cl o st))
  = Some (Conversation.mk (Conversation.id c0)
            (if JS.eqb (Conversation.title c0) default_title
             then generateTitle content else Conversation.title c0)
            t1 (Conversation.isPinned c0)
            (substring0 50 content
               ++ (if (50 <? List.length content)%nat then lit "..." else []))
            (Conversation.messages c
               ++ [Message.with_status sent userMessage;
                   Message.mk (lit "assistant-" ++ of_N t1) assistant response
                              t1 None None None None])).
Proof.
  intros Ho H. unfold handleSendMessage_settled. rewrite Ho.
  unfold updateConversationMetadata, updateConversationMessages, cl.
  cbn [conversations set_loading set_conversations cl_conversationId
       cl_messages cl_userMessage cl_content].
  erewrite find_map_by_id_target;
    [| reflexivity
     | apply find_map_by_id_target; [reflexivity | eassumption]].
  reflexivity.
Qed.

Lemma find_after_failure st c0 o :
  callAI o = None ->
  find_conversation a (conversations st) = Some c0 ->
  find_conversation a (conversations (handleSendMessage_settled t1 cl o st))
  = Some (Conversation.with_messages
            (Conversation.messages c
               ++ [Message.with_status error userMessage]) c0).
Proof.
  intros Ho H. unfold handleSendMessage_settled. rewrite Ho. simpl.
  now apply find_map_by_id_target.
Qed.

Lemma sendMessage_unfold sched o :
  sendMessage sched t0 t1 content o s
  = match sched with
    | TimeoutFirst =>
        handleSendMessage_settled t1 cl o (handleSendMessage_timeout cl s1)
    | SettleFirst =>
        handleSendMessage_timeout cl (handleSendMessage_settled t1 cl o s1)
    end.
Proof. unfold sendMessage. now rewrite handleSendMessage_start_runs. Qed.

Lemma sendMessage_at_settle_unfold timerFired o :
  sendMessage_at_settle timerFired t0 t1 content o s
  = handleSendMessage_settled t1 cl o
      (if timerFired then handleSendMessage_timeout cl s1 else s1).
Proof.
  unfold sendMessage_at_settle. now rewrite handleSendMessage_start_runs.
Qed.

(** What the store holds for the conversation once the call has settled
    with a response. *)
Lemma persisted_at_success timerFired o response :
  callAI o = Some response ->
  exists c',
    find_conversation a
      (conversations (sendMessage_at_settle timerFired t0 t1 content o s))
    = Some c'
    /\ Conversation.messages c'
       = Conversation.messages c
           ++ [Message.with_status sent userMessage;
               Message.mk (lit "assistant-" ++ of_N t1) assistant response
                          t1 None None None None]
    /\ Conversation.title c'
       = (if JS.eqb (Conversation.title c) default_title
          then generateTitle content else Conversation.title c).
Proof.
  intros Ho. rewrite sendMessage_at_settle_unfold.
  destruct timerFired.
  - erewrite find_after_success;
      [| exact Ho | apply find_after_timeout, find_after_start].
    eexists. split; [reflexivity|]. split; reflexivity.
  - erewrite find_after_success; [| exact Ho | apply find_after_start].
    eexists. split; [reflexivity|]. split; reflexivity.
Qed.

(** The persisted message list after both continuations have run. *)
Lemma persisted_after_round_trip sched o :
  exists c',
    find_conversation a (conversations (sendMessage sched t0 t1 content o s))
    = Some c'
    /\ Conversation.messages c'
       = Conversation.messages c
           ++ match sched, callAI o with
              | TimeoutFirst, Some response =>
                  [Message.with_status sent userMessage;
                   Message.mk (lit "assistant-" ++ of_N t1) assistant response
                              t1 None None None None]
              | TimeoutFirst, None => [Message.with_status error userMessage]
              | SettleFirst, _ => [Message.with_status sent userMessage]
              end.
Proof.
  rewrite sendMessage_unfold. destruct sched.
  - destruct (callAI o) as [response|] eqn:Ho.
    + erewrite find_after_success;
        [| exact Ho | apply find_after_timeout, find_after_start].
      eexists. split; reflexivity.
    + erewrite find_after_failure;
        [| exact Ho | apply find_after_timeout, find_after_start].
      eexists. split; reflexivity.
  - destruct (callAI o) as [response|] eqn:Ho.
    + erewrite find_after_timeout;
        [| eapply find_after_success; [exact Ho | apply find_after_start]].
      eexists. split; reflexivity.
    + erewrite find_after_timeout;
        [| eapply find_after_failure; [exact Ho | apply find_after_start]].
      eexists. split; reflexivity.
Qed.

End Send.

Lemma sendMessage_timeout_first t0 t1 content o s :
  AIAssistant.sendMessage AIAssistant.TimeoutFirst t0 t1 content o s
  = AIAssistant.sendMessage_at_settle true t0 t1 content o s.
Proof.
  unfold AIAssistant.sendMessage, AIAssistant.sendMessage_at_settle.
  now destruct (AIAssistant.handleSendMessage_start t0 content s) as [? [?|]].
Qed.

(** C1, as the code has it.  With an active conversation [c] and a text
    whose trim is non-empty, when the call resolves with [response] the
    store holds, as the settled continuation returns and whether or not the
    timer has fired by then, the messages of [c] followed by exactly two
    more: the user message (trimmed text, status [sent]) and the assistant
    message.  In the order timer-then-response this is the final state.  If
    the title was still the default it becomes [generateTitle] of the raw
    text: the first four segments between single spaces, joined by spaces,
    with an ellipsis when there are more than four segments; for a text of
    words separated by single spaces these are its first four words, with
    an ellipsis exactly when more words remain. *)
Theorem send_message_success (s : AIAssistant.State) (a : jsstring)
  (c : Conversation.t) (content : jsstring) (t0 t1 : Date)
  (o : AIAssistant.FetchOutcome) (response : jsstring) (timerFired : bool) :
  AIAssistant.activeConversationId s = Some a ->
  a <> [] ->
  AIAssistant.find_conversation a (AIAssistant.conversations s) = Some c ->
  trim content <> [] ->
  AIAssistant.callAI o = Some response ->
  AIAssistant.generateTitle (lit "Hello world this is a test")
  = lit "Hello world this is..."
  /\ (SpecTitle.single_spaced content ->
      AIAssistant.generateTitle content
      = SpecTitle.first_four_words_title content)
  /\ AIAssistant.sendMessage AIAssistant.TimeoutFirst t0 t1 content o s
     = AIAssistant.sendMessage_at_settle true t0 t1 content o s
  /\ exists c',
      AIAssistant.find_conversation a
        (AIAssistant.conversations
           (AIAssistant.sendMessage_at_settle timerFired t0 t1 content o s))
      = Some c'
      /\ Conversation.messages c'
         = Conversation.messages c
             ++ [Message.mk (lit "user-" ++ of_N t0) user (trim content) t0
                            None None None (Some sent);
                 Message.mk (lit "assistant-" ++ of_N t1) assistant response
                            t1 None None None None]
      /\ Conversation.title c'
         = (if JS.eqb (Conversation.title c) AIAssistant.default_title
            then AIAssistant.generateTitle content
            else Conversation.title c).
Proof.
  intros Hact Ha Hfind Hcontent Ho.
  split; [reflexivity|].
  split; [apply generateTitle_single_spaced|].
  split; [apply sendMessage_timeout_first|].
  exact (persisted_at_success s a c content t0 t1 Hact Ha Hfind Hcontent
           timerFired o response Ho).
Qed.

Lemma send_message_success_witness :
  exists c',
    AIAssistant.find_conversation (lit "default")
      (AIAssistant.conversations
         (AIAssistant.sendMessage_at_settle true 100 900
            (lit "Hello world this is a test")
            (AIAssistant.FetchOk (Some (lit "Hi!"))) Sample.single))
    = Some c'
    /\ Conversation.messages c'
       = Conversation.messages Sample.conv_c
           ++ [Message.mk (lit "user-" ++ of_N 100) user
                          (trim (lit "Hello world this is a test")) 100%N
                          None None None (Some sent);
               Message.mk (lit "assistant-" ++ of_N 900) assistant (lit "Hi!")
                          900%N None None None None]
    /\ Conversation.title c'
       = (if JS.eqb (Conversation.title Sample.conv_c)
                    AIAssistant.default_title
          then AIAssistant.generateTitle (lit "Hello world this is a test")
          else Conversation.title Sample.conv_c).
Proof.
  apply (send_message_success Sample.single (lit "default") Sample.conv_c
           (lit "Hello world this is a test") 100%N 900%N
           (AIAssistant.FetchOk (Some (lit "Hi!"))) (lit "Hi!") true);
    [reflexivity | discriminate | reflexivity | discriminate | reflexivity].
Defined.

(** The text [a  b c d] (four words, two spaces after the first) has a
    non-empty trim and no fifth word, yet [split(' ')] finds five segments,
    one of them empty: the derived title holds three words and an ellipsis,
    not the first four words of the text. *)
Lemma title_is_not_first_four_words :
  let text := lit "a  b c d" in
  let s' := AIAssistant.sendMessage AIAssistant.TimeoutFirst 100 900 text
              (AIAssistant.FetchOk (Some (lit "ok"))) Sample.single in
  trim text <> []
  /\ AIAssistant.activeConversation Sample.single = Some Sample.conv_c
  /\ Conversation.title Sample.conv_c = AIAssistant.default_title
  /\ SpecTitle.words text = [lit "a"; lit "b"; lit "c"; lit "d"]
  /\ SpecTitle.first_four_words_title text = lit "a b c d"
  /\ ConversationHistory.title_of (lit "default") s' = Some (lit "a  b c...")
  /\ ConversationHistory.title_of (lit "default") s'
     <> Some (SpecTitle.first_four_words_title text).
Proof.
  repeat split; try reflexivity; discriminate.
Qed.

(** A trailing space counts as a fifth segment as well. *)
Remark trailing_space_adds_ellipsis :
  AIAssistant.generateTitle (lit "a b c d ") = lit "a b c d..."
  /\ SpecTitle.first_four_words_title (lit "a b c d ") = lit "a b c d".
Proof. split; reflexivity. Qed.

(** When the response arrives before the 100 ms timer, the timer's stale
    write comes last and the reply is no longer in the store. *)
Remark late_timer_drops_reply :
  option_map (fun c => map Message.content (Conversation.messages c))
    (AIAssistant.find_conversation (lit "default")
       (AIAssistant.conversations
          (AIAssistant.sendMessage AIAssistant.SettleFirst 100 150
             (lit "hello") (AIAssistant.FetchOk (Some (lit "Hi!")))
             Sample.single)))
  = Some [lit "hello"].
Proof. reflexivity. Qed.

(** C2, as the code has it.  With an active conversation and a non-blank
    text, once both the timer and the call have run the store holds the
    user message right after the earlier messages, and its status is never
    [sending]: it is [sent] when the call succeeded, in either order, and
    when the call failed before the timer fired; it is [error] when the
    call failed after the timer had fired. *)
Theorem user_status_after_round_trip (s : AIAssistant.State) (a : jsstring)
  (c : Conversation.t) (content : jsstring) (t0 t1 : Date)
  (o : AIAssistant.FetchOutcome) (sched : AIAssistant.Schedule) :
  AIAssistant.activeConversationId s = Some a ->
  a <> [] ->
  AIAssistant.find_conversation a (AIAssistant.conversations s) = Some c ->
  trim content <> [] ->
  exists c' u rest,
    AIAssistant.find_conversation a
      (AIAssistant.conversations
         (AIAssistant.sendMessage sched t0 t1 content o s))
    = Some c'
    /\ Conversation.messages c' = Conversation.messages c ++ u :: rest
    /\ Message.id u = lit "user-" ++ of_N t0
    /\ Message.type u = user
    /\ Message.content u = trim content
    /\ Message.status u
       = Some (match sched, AIAssistant.callAI o with
               | AIAssistant.TimeoutFirst, None => error
               | _, _ => sent
               end)
    /\ Message.status u <> Some sending.
Proof.
  intros Hact Ha Hfind Hcontent.
  destruct (persisted_after_round_trip s a c content t0 t1 Hact Ha Hfind
              Hcontent sched o) as [c' [Hc' Hms]].
  exists c'.
  destruct sched; destruct (AIAssistant.callAI o) as [response|];
    (eexists; eexists; split; [exact Hc'|];
     split; [exact Hms|]; repeat split; discriminate).
Qed.

Lemma user_status_after_round_trip_witness :
  exists c' u rest,
    AIAssistant.find_conversation (lit "default")
      (AIAssistant.conversations
         (AIAssistant.sendMessage AIAssistant.SettleFirst 100 130
            (lit "hello") AIAssistant.FetchRejects Sample.single))
    = Some c'
    /\ Conversation.messages c' = Conversation.messages Sample.conv_c ++ u :: rest
    /\ Message.id u = lit "user-" ++ of_N 100
    /\ Message.type u = user
    /\ Message.content u = trim (lit "hello")
    /\ Message.status u
       = Some (match AIAssistant.SettleFirst,
                     AIAssistant.callAI AIAssistant.FetchRejects with
               | AIAssistant.TimeoutFirst, None => error
               | _, _ => sent
               end)
    /\ Message.status u <> Some sending.
Proof.
  apply (user_status_after_round_trip Sample.single (lit "default")
           Sample.conv_c (lit "hello") 100%N 130%N AIAssistant.FetchRejects
           AIAssistant.SettleFirst);
    [reflexivity | discriminate | reflexivity | discriminate].
Defined.

(** A call that fails after the timer has fired leaves the user message
    with status [error]: no user message with status [sent] is persisted. *)
Lemma failed_send_persists_error :
  let s' := AIAssistant.sendMessage AIAssistant.TimeoutFirst 100 900
              (lit "hello") AIAssistant.FetchRejects Sample.single in
  trim (lit "hello") <> []
  /\ AIAssistant.activeConversation Sample.single = Some Sample.conv_c
  /\ option_map (fun c => map Message.status (Conversation.messages c))
       (AIAssistant.find_conversation (lit "default")
          (AIAssistant.conversations s'))
     = Some [Some error]
  /\ ~ (exists c' u,
          AIAssistant.find_conversation (lit "default")
            (AIAssistant.conversations s') = Some c'
          /\ In u (Conversation.messages c')
          /\ Message.status u = Some sent).
Proof.
  repeat split; try reflexivity; try discriminate.
  intros [c' [u [Hc' [Hin Hst]]]].
  vm_compute in Hc'. injection Hc' as <-.
  destruct Hin as [<-|[]]. discriminate Hst.
Qed.

(** * Further properties of the code *)

(** ** More on strings *)

Section StringFacts.

Lemma split_by_not_nil p s : split_by p s <> [].
Proof.
  destruct s as [|c r]; simpl; [discriminate|].
  destruct (p c); [discriminate|].
  destruct (split_by p r); discriminate.
Qed.

Lemma split_by_length p s :
  List.length (split_by p s) = S (List.length (filter p s)).
Proof.
  induction s as [|c r IH]; simpl; [reflexivity|].
  destruct (p c); simpl; [now rewrite IH|].
  destruct (split_by p r) as [|seg segs] eqn:E.
  - now apply split_by_not_nil in E.
  - simpl in *. exact IH.
Qed.

Lemma join_cons_head sep c seg segs :
  join sep ((c :: seg) :: segs) = c :: join sep (seg :: segs).
Proof. destruct segs; reflexivity. Qed.

Lemma join_split sep s : join [sep] (split sep s) = s.
Proof.
  unfold split. induction s as [|c r IH]; simpl; [reflexivity|].
  destruct (N.eqb sep c) eqn:E.
  - apply N.eqb_eq in E. subst c.
    destruct (split_by (N.eqb sep) r) as [|seg segs] eqn:Hs.
    + now apply split_by_not_nil in Hs.
    + simpl. f_equal. exact IH.
  - destruct (split_by (N.eqb sep) r) as [|seg segs] eqn:Hs.
    + now apply split_by_not_nil in Hs.
    + rewrite join_cons_head. f_equal. exact IH.
Qed.

Lemma join_app sep xs ys :
  xs <> [] -> ys <> [] ->
  join sep (xs ++ ys) = join sep xs ++ sep ++ join sep ys.
Proof.
  intros Hx Hy. induction xs as [|x xs IH]; [contradiction|].
  destruct xs as [|x' xs].
  - simpl. destruct ys; [contradiction | reflexivity].
  - change (join sep ((x :: x' :: xs) ++ ys))
      with (x ++ sep ++ join sep ((x' :: xs) ++ ys)).
    rewrite IH by discriminate.
    change (join sep (x :: x' :: xs)) with (x ++ sep ++ join sep (x' :: xs)).
    now rewrite <- !app_assoc.
Qed.

Lemma dropWhile_suffix p s : exists pre, s = pre ++ dropWhile p s.
Proof.
  induction s as [|c r [pre IH]]; simpl.
  - now exists [].
  - destruct (p c).
    + exists (c :: pre). simpl. now f_equal.
    + now exists [].
Qed.

Lemma dropWhile_head p s c r : dropWhile p s = c :: r -> p c = false.
Proof.
  induction s as [|x s IH]; simpl; [discriminate|].
  destruct (p x) eqn:E; [exact IH|].
  intros [= <- _]. exact E.
Qed.

Lemma dropWhile_stable p s :
  match s with [] => True | c :: _ => p c = false end -> dropWhile p s = s.
Proof. destruct s as [|c r]; simpl; [reflexivity|]. now intros ->. Qed.

Lemma dropWhile_keeps p s c : In c s -> p c = false -> dropWhile p s <> [].
Proof.
  induction s as [|x s IH]; simpl; [intros []|].
  intros [->|Hin] Hc.
  - rewrite Hc. discriminate.
  - destruct (p x); [now apply IH | discriminate].
Qed.

(** A trimmed string is empty or starts and ends outside white space. *)
Lemma trim_shape s :
  trim s = []
  \/ exists c mid d,
       (trim s = [c] /\ c = d /\ mid = [] \/ trim s = c :: mid ++ [d])
       /\ is_ws c = false /\ is_ws d = false.
Proof.
  unfold trim, trimEnd, trimStart.
  destruct (dropWhile is_ws (rev (dropWhile is_ws s))) as [|d rest] eqn:Hd;
    [now left | right].
  assert (Hdws : is_ws d = false) by (eapply dropWhile_head; exact Hd).
  destruct (dropWhile_suffix is_ws (rev (dropWhile is_ws s))) as [pre Hpre].
  rewrite Hd in Hpre.
  assert (Ht : dropWhile is_ws s = rev rest ++ d :: rev pre).
  { rewrite <- (rev_involutive (dropWhile is_ws s)), Hpre, rev_app_distr.
    simpl. now rewrite <- app_assoc. }
  simpl. destruct (rev rest) as [|c mid] eqn:Hr.
  - exists d, [], d. simpl. split; [left; now repeat split | now split].
  - exists c, mid, d. simpl. split; [now right|]. split; [|exact Hdws].
    simpl in Ht. eapply dropWhile_head. exact Ht.
Qed.

Lemma trimEnd_fixed pre d :
  is_ws d = false -> trimEnd (pre ++ [d]) = pre ++ [d].
Proof.
  intros Hd. unfold trimEnd. rewrite rev_app_distr.
  cbn [rev app dropWhile]. rewrite Hd.
  cbn [rev]. now rewrite rev_involutive.
Qed.

Lemma trim_fixed c mid d :
  is_ws c = false -> is_ws d = false ->
  trim (c :: mid ++ [d]) = c :: mid ++ [d].
Proof.
  intros Hc Hd. unfold trim, trimStart.
  rewrite (dropWhile_stable is_ws (c :: mid ++ [d])) by exact Hc.
  now apply (trimEnd_fixed (c :: mid)).
Qed.

Lemma trim_idempotent s : trim (trim s) = trim s.
Proof.
  destruct (trim_shape s) as [->|[c [mid [d [[[-> [<- _]]| ->] [Hc Hd]]]]]].
  - reflexivity.
  - unfold trim, trimStart.
    rewrite (dropWhile_stable is_ws [c]) by exact Hc.
    now apply (trimEnd_fixed []).
  - now apply trim_fixed.
Qed.

Lemma trim_keeps_content c r :
  is_ws c = false -> trim (c :: r) <> [].
Proof.
  intros Hc. unfold trim, trimStart, trimEnd.
  rewrite (dropWhile_stable is_ws (c :: r)) by exact Hc.
  intros E. apply (f_equal (@rev N)) in E. rewrite rev_involutive in E.
  simpl in E. revert E. apply (dropWhile_keeps is_ws _ c); [|exact Hc].
  apply in_or_app. right. now left.
Qed.

Lemma includes_nil s : includes [] s = true.
Proof. destruct s; reflexivity. Qed.

End StringFacts.

(** ** The round trip of [handleSendMessage], continued *)

Section SendMore.
Import AIAssistant StoreFrame.

Lemma handleSendMessage_start_cases t0 content s :
  handleSendMessage_start t0 content s = (s, None)
  /\ (trim content = [] \/ activeConversationId s = None
      \/ activeConversationId s = Some [])
  \/ exists a,
       activeConversationId s = Some a /\ a <> [] /\ trim content <> []
       /\ handleSendMessage_start t0 content s
          = (set_loading true
               (updateConversationMessages a
                  (messages s
                     ++ [Message.mk (lit "user-" ++ of_N t0) user
                                    (trim content) t0 None None None
                                    (Some sending)]) s),
             Some (mkClosure a (messages s)
                     (Message.mk (lit "user-" ++ of_N t0) user (trim content)
                                 t0 None None None (Some sending))
                     content)).
Proof.
  unfold handleSendMessage_start.
  destruct (activeConversationId s) as [a|] eqn:Ha; [|left; auto].
  destruct a as [|x a]; [left; auto|].
  destruct (trim content) as [|y t] eqn:Ht; [left; auto|].
  right. exists (x :: a). repeat split; discriminate.
Qed.

Lemma only_touches_refl a s : only_touches a s s.
Proof. repeat split. now intros. Qed.

Lemma only_touches_trans a s1 s2 s3 :
  only_touches a s1 s2 -> only_touches a s2 s3 -> only_touches a s1 s3.
Proof.
  intros [A1 [I1 F1]] [A2 [I2 F2]]. repeat split; try congruence.
  intros i c Hn Hc. apply F2; [now apply F1 | exact Hc].
Qed.

Lemma only_touches_map_by_id a f s :
  (forall c, Conversation.id (f c) = Conversation.id c) ->
  only_touches a s (set_conversations (map_by_id a f (conversations s)) s).
Proof.
  intros Hf. repeat split; simpl.
  - now apply map_by_id_ids.
  - intros i c. apply map_by_id_other.
Qed.

Lemma only_touches_set_loading a b s : only_touches a s (set_loading b s).
Proof. repeat split. now intros. Qed.

Lemma only_touches_toast a t s : only_touches a s (toast t s).
Proof. repeat split. now intros. Qed.

Lemma only_touches_timeout cl s :
  only_touches (cl_conversationId cl) s (handleSendMessage_timeout cl s).
Proof. now apply only_touches_map_by_id. Qed.

Lemma only_touches_settled t1 cl o s :
  only_touches (cl_conversationId cl) s (handleSendMessage_settled t1 cl o s).
Proof.
  unfold handleSendMessage_settled.
  eapply only_touches_trans; [|apply only_touches_set_loading].
  destruct (callAI o).
  - eapply only_touches_trans;
      [|unfold updateConversationMetadata; now apply only_touches_map_by_id].
    now apply only_touches_map_by_id.
  - eapply only_touches_trans; [|apply only_touches_toast].
    now apply only_touches_map_by_id.
Qed.

Lemma only_touches_sendMessage sched t0 t1 content o s :
  match activeConversationId s with
  | Some a => only_touches a s (sendMessage sched t0 t1 content o s)
  | None => sendMessage sched t0 t1 content o s = s
  end.
Proof.
  unfold sendMessage.
  destruct (handleSendMessage_start_cases t0 content s)
    as [[-> H]|[a [Ha [_ [_ ->]]]]].
  - destruct (activeConversationId s); [apply only_touches_refl | reflexivity].
  - rewrite Ha.
    assert (H1 : only_touches a s
                   (set_loading true
                      (updateConversationMessages a
                         (messages s
                            ++ [Message.mk (lit "user-" ++ of_N t0) user
                                  (trim content) t0 None None None
                                  (Some sending)]) s))).
    { eapply only_touches_trans; [|apply only_touches_set_loading].
      now apply only_touches_map_by_id. }
    destruct sched; (eapply only_touches_trans; [exact H1|]).
    + eapply only_touches_trans;
        [|match goal with
          | |- only_touches _ _ (handleSendMessage_settled _ ?cl _ ?st) =>
              exact (only_touches_settled t1 cl o st)
          end].
      match goal with
      | |- only_touches _ _ (handleSendMessage_timeout ?cl ?st) =>
          exact (only_touches_timeout cl st)
      end.
    + eapply only_touches_trans;
        [|match goal with
          | |- only_touches _ _ (handleSendMessage_timeout ?cl ?st) =>
              exact (only_touches_timeout cl st)
          end].
      match goal with
      | |- only_touches _ _ (handleSendMessage_settled _ ?cl _ ?st) =>
          exact (only_touches_settled t1 cl o st)
      end.
Qed.

Lemma find_other_after_map_by_id a b f cs :
  a <> b ->
  (forall c, Conversation.id (f c) = Conversation.id c) ->
  find_conversation b (map_by_id a f cs) = find_conversation b cs.
Proof.
  intros Hab Hf. rewrite map_by_id_find by exact Hf.
  destruct (find_conversation b cs) as [c|] eqn:Hc; [|reflexivity].
  apply find_conversation_some in Hc as [_ Hid]. simpl.
  assert (E : JS.eqb (Conversation.id c) a = false)
    by (apply eqb_neq; congruence).
  now rewrite E.
Qed.

End SendMore.

(** X1. Sending a text that trims to nothing, or sending with no active
    conversation, changes nothing at all: no message, no flag, no notice,
    whatever the call would have answered. *)
Theorem send_blank_or_inactive_is_noop (sched : AIAssistant.Schedule)
  (t0 t1 : Date) (content : jsstring) (o : AIAssistant.FetchOutcome)
  (s : AIAssistant.State) :
  trim content = [] \/ AIAssistant.activeConversationId s = None ->
  AIAssistant.sendMessage sched t0 t1 content o s = s.
Proof.
  intros H. unfold AIAssistant.sendMessage.
  destruct (handleSendMessage_start_cases t0 content s)
    as [[-> _]|[a [Ha [_ [Ht _]]]]]; [reflexivity|].
  destruct H as [H|H]; congruence.
Qed.

Lemma send_blank_or_inactive_is_noop_witness :
  AIAssistant.sendMessage AIAssistant.TimeoutFirst 100 900
    [space; newline; space] (AIAssistant.FetchOk (Some (lit "Hi!")))
    Sample.store
  = Sample.store.
Proof.
  apply send_blank_or_inactive_is_noop. left. reflexivity.
Defined.

(** X2. A whole round trip, in either order of timer and response and
    whatever the outcome, keeps the active id, the ids and the order of the
    collection, and leaves every conversation other than the one that was
    active at the call exactly as it was. *)
Theorem send_round_trip_frame (sched : AIAssistant.Schedule) (t0 t1 : Date)
  (content : jsstring) (o : AIAssistant.FetchOutcome)
  (s : AIAssistant.State) :
  AIAssistant.activeConversationId
    (AIAssistant.sendMessage sched t0 t1 content o s)
  = AIAssistant.activeConversationId s
  /\ map Conversation.id
       (AIAssistant.conversations
          (AIAssistant.sendMessage sched t0 t1 content o s))
     = map Conversation.id (AIAssistant.conversations s)
  /\ (forall i c,
        nth_error (AIAssistant.conversations s) i = Some c ->
        AIAssistant.activeConversationId s <> Some (Conversation.id c) ->
        nth_error
          (AIAssistant.conversations
             (AIAssistant.sendMessage sched t0 t1 content o s)) i
        = Some c).
Proof.
  pose proof (only_touches_sendMessage sched t0 t1 content o s) as H.
  destruct (AIAssistant.activeConversationId s) as [a|] eqn:Ha.
  - destruct H as [A [I F]].
    split; [congruence|]. split; [exact I|].
    intros i c Hn Hc. apply F; [exact Hn | congruence].
  - rewrite H. split; [exact Ha|]. split; [reflexivity|]. now intros.
Qed.

Lemma send_round_trip_frame_witness :
  nth_error
    (AIAssistant.conversations
       (AIAssistant.sendMessage AIAssistant.SettleFirst 100 900 (lit "hello")
          AIAssistant.FetchRejects Sample.store)) 0
  = Some Sample.conv_a.
Proof.
  apply (proj2 (proj2 (send_round_trip_frame AIAssistant.SettleFirst 100 900
                         (lit "hello") AIAssistant.FetchRejects Sample.store))
           0%nat Sample.conv_a).
  - reflexivity.
  - discriminate.
Defined.




(** X4. Once a send has passed its guard the loading flag is up; when the
    round trip is over it is down again, in either order and on both
    outcomes; a failed call adds exactly one notice, a destructive one, and
    a successful call adds none. *)
Theorem send_loading_flag_and_notice (sched : AIAssistant.Schedule)
  (t0 t1 : Date) (content : jsstring) (o : AIAssistant.FetchOutcome)
  (s : AIAssistant.State) (a : jsstring) :
  AIAssistant.activeConversationId s = Some a ->
  a <> [] ->
  trim content <> [] ->
  AIAssistant.isLoading
    (fst (AIAssistant.handleSendMessage_start t0 content s)) = true
  /\ AIAssistant.isLoading (AIAssistant.sendMessage sched t0 t1 content o s)
     = false
  /\ AIAssistant.toasts (AIAssistant.sendMessage sched t0 t1 content o s)
     = AIAssistant.toasts s
         ++ match AIAssistant.callAI o with
            | Some _ => []
            | None =>
                [AIAssistant.mkToast (lit "Failed to send message")
                   (lit "There was an error communicating with the AI. Please try again.")
                   true]
            end.
Proof.
  intros Hact Ha Ht. unfold AIAssistant.sendMessage.
  destruct (handleSendMessage_start_cases t0 content s)
    as [[_ [H|[H|H]]]|[a' [_ [_ [_ ->]]]]]; try congruence.
  cbn [fst]. split; [reflexivity|].
  unfold AIAssistant.handleSendMessage_settled,
    AIAssistant.handleSendMessage_timeout.
  destruct sched; destruct (AIAssistant.callAI o);
    (split; [reflexivity|]); cbn; rewrite ?app_nil_r; reflexivity.
Qed.

Lemma send_loading_flag_and_notice_witness :
  AIAssistant.isLoading
    (fst (AIAssistant.handleSendMessage_start 100 (lit "hello") Sample.store))
  = true
  /\ AIAssistant.isLoading
       (AIAssistant.sendMessage AIAssistant.SettleFirst 100 900 (lit "hello")
          (AIAssistant.FetchNotOk 503) Sample.store) = false
  /\ AIAssistant.toasts
       (AIAssistant.sendMessage AIAssistant.SettleFirst 100 900 (lit "hello")
          (AIAssistant.FetchNotOk 503) Sample.store)
     = AIAssistant.toasts Sample.store
         ++ match AIAssistant.callAI (AIAssistant.FetchNotOk 503) with
            | Some _ => []
            | None =>
                [AIAssistant.mkToast (lit "Failed to send message")
                   (lit "There was an error communicating with the AI. Please try again.")
                   true]
            end.
Proof.
  apply (send_loading_flag_and_notice AIAssistant.SettleFirst 100 900
           (lit "hello") (AIAssistant.FetchNotOk 503) Sample.store
           (lit "conv-20"));
    [reflexivity | discriminate | discriminate].
Defined.



(** ** Titles, previews and the store operations *)

Section StoreMore.
Import AIAssistant.

Lemma spaces_and_segments message :
  List.length (split space message)
  = S (List.length (filter (N.eqb space) message)).
Proof. apply split_by_length. Qed.

Lemma generateTitle_short message :
  (List.length (split space message) <= 4)%nat ->
  generateTitle message = message.
Proof.
  intros H. unfold generateTitle.
  rewrite firstn_all2 by exact H.
  apply Nat.ltb_ge in H. rewrite H, app_nil_r. apply join_split.
Qed.

Lemma generateTitle_long message :
  (4 < List.length (split space message))%nat ->
  exists body rest,
    generateTitle message = body ++ lit "..."
    /\ message = body ++ space :: rest.
Proof.
  intros H. unfold generateTitle.
  exists (join [space] (firstn 4 (split space message))),
         (join [space] (skipn 4 (split space message))).
  split.
  - apply Nat.ltb_lt in H. now rewrite H.
  - rewrite <- (join_split space message) at 1.
    rewrite <- (firstn_skipn 4 (split space message)) at 1.
    apply join_app.
    + intros E. apply (f_equal (@List.length _)) in E.
      rewrite length_firstn in E. cbn [List.length] in E.
      lia.
    + intros E. apply (f_equal (@List.length _)) in E.
      rewrite length_skipn in E. cbn [List.length] in E.
      lia.
Qed.

Lemma toggle_pin_twice c :
  Conversation.toggle_pin (Conversation.toggle_pin c) = c.
Proof. destruct c. unfold Conversation.toggle_pin. simpl.
       now rewrite negb_involutive. Qed.

Lemma map_by_id_compose id f g cs :
  (forall c, Conversation.id (f c) = Conversation.id c) ->
  map_by_id id g (map_by_id id f cs)
  = map_by_id id (fun c => g (f c)) cs.
Proof.
  intros Hf. unfold map_by_id. rewrite map_map. apply map_ext. intros c.
  destruct (JS.eqb (Conversation.id c) id) eqn:E.
  - now rewrite Hf, E.
  - now rewrite E.
Qed.

Lemma map_by_id_identity id f cs :
  (forall c, f c = c) -> map_by_id id f cs = cs.
Proof.
  intros Hf. unfold map_by_id. rewrite <- (map_id cs) at 2.
  apply map_ext. intros c. destruct (JS.eqb (Conversation.id c) id); auto.
Qed.

Lemma map_by_id_commute id1 id2 f g cs :
  (forall c, Conversation.id (f c) = Conversation.id c) ->
  (forall c, Conversation.id (g c) = Conversation.id c) ->
  (forall c, f (g c) = g (f c)) ->
  map_by_id id1 f (map_by_id id2 g cs) = map_by_id id2 g (map_by_id id1 f cs).
Proof.
  intros Hf Hg Hfg. unfold map_by_id. rewrite !map_map. apply map_ext.
  intros c.
  destruct (JS.eqb (Conversation.id c) id1) eqn:E1;
    destruct (JS.eqb (Conversation.id c) id2) eqn:E2;
    rewrite ?Hf, ?Hg, ?E1, ?E2; auto.
Qed.

Lemma invariant_by_ids s s' :
  activeConversationId s' = activeConversationId s ->
  map Conversation.id (conversations s') = map Conversation.id (conversations s)
  ->
  ids_truthy (conversations s) /\ active_invariant s ->
  ids_truthy (conversations s') /\ active_invariant s'.
Proof.
  intros Ha Hids [Ht [Hne Hpres]]. split.
  - unfold ids_truthy in *.
    apply (Forall_map Conversation.id (fun i => i <> [])) in Ht.
    apply (Forall_map Conversation.id (fun i => i <> [])).
    now rewrite Hids.
  - split.
    + rewrite Ha, Hne. split; intros H E; apply H.
      * rewrite E in Hids. destruct (conversations s); [reflexivity|].
        discriminate Hids.
      * rewrite E in Hids. destruct (conversations s'); [reflexivity|].
        discriminate Hids.
    + intros a Ha'. rewrite Ha in Ha'.
      destruct (Hpres a Ha') as [c [Hin Hc]].
      assert (Hi : In a (map Conversation.id (conversations s')))
        by (rewrite Hids, <- Hc; now apply in_map).
      apply in_map_iff in Hi as [c' [Hc' Hin']]. now exists c'.
Qed.

Lemma createNewConversation_invariant now s :
  active_invariant (createNewConversation now s).
Proof.
  split; simpl.
  - split; discriminate.
  - intros a [= <-]. eexists. split; [now left | reflexivity].
Qed.

Lemma selectConversation_item_invariant i c s :
  nth_error (conversations s) i = Some c ->
  active_invariant (selectConversation (Conversation.id c) s).
Proof.
  intros Hn. split; simpl.
  - split; [|discriminate]. intros _ E. rewrite E in Hn. now destruct i.
  - intros a [= <-]. exists c. split; [|reflexivity].
    eapply nth_error_In. exact Hn.
Qed.

End StoreMore.

Lemma split_segments_clean p s :
  Forall (fun seg => filter p seg = []) (split_by p s).
Proof.
  induction s as [|c r IH]; simpl; [repeat constructor|].
  destruct (p c) eqn:E; [constructor; [reflexivity | exact IH]|].
  destruct (split_by p r) as [|seg segs].
  - repeat constructor. simpl. now rewrite E.
  - inversion IH as [|? ? Hseg Hrest]; subst. constructor; [|exact Hrest].
    simpl. now rewrite E.
Qed.

Lemma split_clean_segment p seg tail :
  filter p seg = [] ->
  split_by p (seg ++ tail)
  = match split_by p tail with
    | first :: segs => (seg ++ first) :: segs
    | [] => [seg]
    end.
Proof.
  intros H. induction seg as [|c seg IH]; simpl.
  - destruct (split_by p tail) eqn:E; [|reflexivity].
    now apply split_by_not_nil in E.
  - simpl in H. destruct (p c); [discriminate|]. rewrite (IH H).
    destruct (split_by p tail); reflexivity.
Qed.

Lemma split_join sep segs :
  segs <> [] ->
  Forall (fun seg => filter (N.eqb sep) seg = []) segs ->
  split sep (join [sep] segs) = segs.
Proof.
  unfold split. induction segs as [|seg segs IH]; intros Hne Hall;
    [contradiction|].
  inversion Hall as [|? ? Hseg Hrest]; subst.
  destruct segs as [|seg' segs].
  - simpl. rewrite <- (app_nil_r seg) at 1.
    rewrite (split_clean_segment _ _ [] Hseg). simpl. now rewrite app_nil_r.
  - change (join [sep] (seg :: seg' :: segs))
      with (seg ++ sep :: join [sep] (seg' :: segs)).
    rewrite (split_clean_segment _ _ _ Hseg).
    cbn [split_by]. rewrite N.eqb_refl.
    rewrite (IH ltac:(discriminate) Hrest). now rewrite app_nil_r.
Qed.

Lemma generateTitle_body_spaces message :
  (4 < List.length (split space message))%nat ->
  List.length
    (filter (N.eqb space) (join [space] (firstn 4 (split space message))))
  = 3%nat.
Proof.
  intros H.
  pose proof (spaces_and_segments
                (join [space] (firstn 4 (split space message)))) as Hb.
  rewrite split_join in Hb.
  - rewrite length_firstn in Hb. lia.
  - intros E. apply (f_equal (@List.length _)) in E.
    rewrite length_firstn in E.
    cbn [List.length] in E. lia.
  - apply Forall_forall. intros x Hx.
    pose proof (split_segments_clean (N.eqb space) message) as Hc.
    rewrite Forall_forall in Hc. apply Hc. fold (split space message).
    rewrite <- (firstn_skipn 4). apply in_or_app. now left.
Qed.

(** X6. A message with at most three spaces is its own title.  A message
    with more is cut in front of its fourth space and the title is that
    prefix followed by an ellipsis.  The title of a non-empty message is
    never empty. *)
Theorem generateTitle_is_prefix (message : jsstring) :
  ((List.length (filter (N.eqb space) message) <= 3)%nat ->
   AIAssistant.generateTitle message = message)
  /\ ((4 <= List.length (filter (N.eqb space) message))%nat ->
      exists body rest,
        AIAssistant.generateTitle message = body ++ lit "..."
        /\ message = body ++ space :: rest
        /\ List.length (filter (N.eqb space) body) = 3%nat)
  /\ (message <> [] -> AIAssistant.generateTitle message <> []).
Proof.
  pose proof (spaces_and_segments message) as Hn.
  assert (Hlong : (4 <= List.length (filter (N.eqb space) message))%nat ->
                  exists body rest,
                    AIAssistant.generateTitle message = body ++ lit "..."
                    /\ message = body ++ space :: rest
                    /\ List.length (filter (N.eqb space) body) = 3%nat).
  { intros H.
    assert (H4 : (4 < List.length (split space message))%nat) by lia.
    exists (join [space] (firstn 4 (split space message))),
           (join [space] (skipn 4 (split space message))).
    split; [|split].
    - unfold AIAssistant.generateTitle.
      apply Nat.ltb_lt in H4. now rewrite H4.
    - destruct (generateTitle_long message H4) as [body [rest [Hb Hm]]].
      unfold AIAssistant.generateTitle in Hb.
      apply Nat.ltb_lt in H4. rewrite H4 in Hb.
      apply app_inv_tail in Hb. subst body.
      rewrite <- (join_split space message) at 1.
      rewrite <- (firstn_skipn 4 (split space message)) at 1.
      apply Nat.ltb_lt in H4.
      apply join_app.
      + intros E. apply (f_equal (@List.length _)) in E.
        rewrite length_firstn in E.
        cbn [List.length] in E. lia.
      + intros E. apply (f_equal (@List.length _)) in E.
        rewrite length_skipn in E.
        cbn [List.length] in E. lia.
    - now apply generateTitle_body_spaces. }
  split; [|split; [exact Hlong|]].
  - intros H. apply generateTitle_short. lia.
  - intros Hne.
    destruct (Nat.le_gt_cases (List.length (filter (N.eqb space) message)) 3)
      as [H|H].
    + rewrite generateTitle_short by lia. exact Hne.
    + destruct (Hlong H) as [body [rest [-> _]]].
      intros E. apply app_eq_nil in E as [_ E]. discriminate E.
Qed.

Lemma generateTitle_is_prefix_witness :
  AIAssistant.generateTitle (lit "Quarterly budget review") 
  = lit "Quarterly budget review"
  /\ AIAssistant.generateTitle (lit "hi") <> [].
Proof.
  split.
  - apply (proj1 (generateTitle_is_prefix (lit "Quarterly budget review"))).
    simpl. lia.
  - apply (proj2 (proj2 (generateTitle_is_prefix (lit "hi")))). discriminate.
Defined.

(** X7. Updating the metadata of a conversation leaves its id, pin flag
    and messages alone and stamps the time; a title other than the default
    is kept, the default one is replaced by the derived title; the preview is
    the message itself when it has at most 50 code units, and otherwise its
    first 50 followed by an ellipsis, 53 code units in all. *)
Theorem metadata_preview_and_title (now : Date) (id lastMessage : jsstring)
  (s : AIAssistant.State) (c : Conversation.t) :
  AIAssistant.find_conversation id (AIAssistant.conversations s) = Some c ->
  exists c',
    AIAssistant.find_conversation id
      (AIAssistant.conversations
         (AIAssistant.updateConversationMetadata now id lastMessage s))
    = Some c'
    /\ Conversation.id c' = Conversation.id c
    /\ Conversation.isPinned c' = Conversation.isPinned c
    /\ Conversation.messages c' = Conversation.messages c
    /\ Conversation.timestamp c' = now
    /\ (Conversation.title c <> AIAssistant.default_title ->
        Conversation.title c' = Conversation.title c)
    /\ (Conversation.title c = AIAssistant.default_title ->
        Conversation.title c' = AIAssistant.generateTitle lastMessage)
    /\ ((List.length lastMessage <= 50)%nat ->
        Conversation.preview c' = lastMessage)
    /\ ((50 < List.length lastMessage)%nat ->
        Conversation.preview c' = firstn 50 lastMessage ++ lit "..."
        /\ List.length (Conversation.preview c') = 53%nat).
Proof.
  intros Hfind. unfold AIAssistant.updateConversationMetadata.
  cbn [AIAssistant.conversations AIAssistant.set_conversations].
  erewrite find_map_by_id_target; [| reflexivity | exact Hfind].
  eexists. split; [reflexivity|].
  cbn [Conversation.id Conversation.isPinned Conversation.messages
       Conversation.timestamp Conversation.title Conversation.preview].
  repeat split.
  - intros H. apply eqb_neq in H. now rewrite H.
  - intros H. apply eqb_eq in H. now rewrite H.
  - intros H. unfold substring0. rewrite firstn_all2 by exact H.
    apply Nat.ltb_ge in H. now rewrite H, app_nil_r.
  - apply Nat.ltb_lt in H. now rewrite H.
  - pose proof H as H'. apply Nat.ltb_lt in H'. rewrite H'.
    unfold substring0. rewrite length_app, length_firstn.
    cbn [List.length lit map list_ascii_of_string]. lia.
Qed.

Lemma metadata_preview_and_title_witness :
  exists c',
    AIAssistant.find_conversation (lit "conv-10")
      (AIAssistant.conversations
         (AIAssistant.updateConversationMetadata 77 (lit "conv-10")
            (lit "see you") Sample.store))
    = Some c'
    /\ Conversation.id c' = Conversation.id Sample.conv_a
    /\ Conversation.isPinned c' = Conversation.isPinned Sample.conv_a
    /\ Conversation.messages c' = Conversation.messages Sample.conv_a
    /\ Conversation.timestamp c' = 77%N
    /\ (Conversation.title Sample.conv_a <> AIAssistant.default_title ->
        Conversation.title c' = Conversation.title Sample.conv_a)
    /\ (Conversation.title Sample.conv_a = AIAssistant.default_title ->
        Conversation.title c' = AIAssistant.generateTitle (lit "see you"))
    /\ ((List.length (lit "see you") <= 50)%nat ->
        Conversation.preview c' = lit "see you")
    /\ ((50 < List.length (lit "see you"))%nat ->
        Conversation.preview c' = firstn 50 (lit "see you") ++ lit "..."
        /\ List.length (Conversation.preview c') = 53%nat).
Proof.
  apply (metadata_preview_and_title 77 (lit "conv-10") (lit "see you")
           Sample.store Sample.conv_a).
  reflexivity.
Defined.

(** X8. Starting a new conversation puts a fresh, empty, unpinned
    conversation with the default title in front of the collection, which is
    otherwise unchanged, makes it the active one (so the thread shows no
    message), closes the history drawer, and leaves a store that satisfies
    the active-conversation invariant, whatever the store was before. *)
Theorem createNewConversation_front_and_active (now : Date)
  (s : AIAssistant.State) :
  exists c,
    AIAssistant.conversations (AIAssistant.createNewConversation now s)
    = c :: AIAssistant.conversations s
    /\ Conversation.id c = lit "conv-" ++ of_N now
    /\ Conversation.title c = AIAssistant.default_title
    /\ Conversation.isPinned c = false
    /\ Conversation.messages c = []
    /\ AIAssistant.activeConversationId (AIAssistant.createNewConversation now s)
       = Some (Conversation.id c)
    /\ AIAssistant.activeConversation (AIAssistant.createNewConversation now s)
       = Some c
    /\ AIAssistant.messages (AIAssistant.createNewConversation now s) = []
    /\ AIAssistant.isHistoryOpen (AIAssistant.createNewConversation now s)
       = false
    /\ AIAssistant.active_invariant (AIAssistant.createNewConversation now s).
Proof.
  eexists. split; [reflexivity|]. do 5 (split; [reflexivity|]).
  assert (Hact : AIAssistant.activeConversation
                   (AIAssistant.createNewConversation now s)
                 = Some (Conversation.mk (lit "conv-" ++ of_N now)
                           AIAssistant.default_title now false
                           (lit "Start a new conversation") [])).
  { unfold AIAssistant.activeConversation, AIAssistant.createNewConversation,
      AIAssistant.find_conversation.
    cbn [AIAssistant.activeConversationId AIAssistant.conversations
         AIAssistant.toast AIAssistant.set_historyOpen AIAssistant.set_active
         AIAssistant.set_conversations Conversation.id find].
    now rewrite eqb_refl. }
  split; [exact Hact|]. split.
  - unfold AIAssistant.messages. now rewrite Hact.
  - split; [reflexivity | apply createNewConversation_invariant].
Qed.

(** X9. Clearing the history is a no-op unless confirmed; when confirmed
    the collection is empty and nothing is active, and the next render
    bootstraps exactly one conversation, [default], and makes it active.
    The bootstrap does nothing to a non-empty store, so running it again
    changes nothing. *)
Theorem clear_history_then_bootstrap (now now' : Date)
  (s : AIAssistant.State) :
  SettingsPanel.handleClearHistory false s = s
  /\ AIAssistant.conversations (SettingsPanel.handleClearHistory true s) = []
  /\ AIAssistant.activeConversationId (SettingsPanel.handleClearHistory true s)
     = None
  /\ AIAssistant.conversations
       (AIAssistant.bootstrapEffect now
          (SettingsPanel.handleClearHistory true s))
     = [Conversation.mk (lit "default") AIAssistant.default_title now false
                        (lit "Welcome to AI Assistant") []]
  /\ AIAssistant.activeConversationId
       (AIAssistant.bootstrapEffect now
          (SettingsPanel.handleClearHistory true s))
     = Some (lit "default")
  /\ AIAssistant.bootstrapEffect now' (AIAssistant.bootstrapEffect now s)
     = AIAssistant.bootstrapEffect now s
  /\ AIAssistant.conversations (AIAssistant.bootstrapEffect now s) <> []
  /\ (AIAssistant.conversations s <> [] ->
      AIAssistant.bootstrapEffect now s = s).
Proof.
  do 5 (split; [reflexivity|]).
  unfold AIAssistant.bootstrapEffect.
  destruct (AIAssistant.conversations s) as [|c cs] eqn:E; simpl.
  - repeat split; try discriminate. intros H. now contradiction H.
  - rewrite E. repeat split; discriminate.
Qed.

Lemma clear_history_then_bootstrap_witness :
  AIAssistant.bootstrapEffect 5 Sample.store = Sample.store.
Proof.
  apply (proj2 (proj2 (proj2 (proj2 (proj2 (proj2 (proj2
           (clear_history_then_bootstrap 5 6 Sample.store)))))))).
  discriminate.
Defined.

Lemma filter_absent_id id cs :
  AIAssistant.find_conversation id cs = None ->
  filter (fun conv => negb (JS.eqb (Conversation.id conv) id)) cs = cs.
Proof.
  intros H. apply filter_all_true. apply Forall_forall. intros c Hin.
  apply negb_true_iff, eqb_neq. now apply (find_conversation_none id cs).
Qed.

Lemma find_after_filter id cs :
  AIAssistant.find_conversation id
    (filter (fun conv => negb (JS.eqb (Conversation.id conv) id)) cs) = None.
Proof.
  unfold AIAssistant.find_conversation.
  induction cs as [|c cs IH]; simpl; [reflexivity|].
  destruct (JS.eqb (Conversation.id c) id) eqn:E; simpl; [exact IH|].
  now rewrite E.
Qed.

(** X10. Deleting by id removes exactly the conversations with that id and
    keeps the others in their order; afterwards no conversation has the id;
    the active id moves only when it was the deleted one; deleting an id
    that is not there leaves collection and active id as they were, and the
    notice is shown in every case. *)
Theorem delete_removes_exactly_id (id : jsstring) (s : AIAssistant.State) :
  AIAssistant.conversations (AIAssistant.deleteConversation id s)
  = filter (fun conv => negb (JS.eqb (Conversation.id conv) id))
           (AIAssistant.conversations s)
  /\ (forall c,
        In c (AIAssistant.conversations (AIAssistant.deleteConversation id s))
        <-> In c (AIAssistant.conversations s) /\ Conversation.id c <> id)
  /\ AIAssistant.find_conversation id
       (AIAssistant.conversations (AIAssistant.deleteConversation id s))
     = None
  /\ (AIAssistant.activeConversationId s <> Some id ->
      AIAssistant.activeConversationId (AIAssistant.deleteConversation id s)
      = AIAssistant.activeConversationId s)
  /\ (AIAssistant.find_conversation id (AIAssistant.conversations s) = None ->
      AIAssistant.activeConversationId s <> Some id ->
      AIAssistant.conversations (AIAssistant.deleteConversation id s)
      = AIAssistant.conversations s)
  /\ AIAssistant.toasts (AIAssistant.deleteConversation id s)
     = AIAssistant.toasts s
         ++ [AIAssistant.mkToast (lit "Conversation Deleted")
               (lit "The conversation has been removed") false].
Proof.
  rewrite deleteConversation_conversations, deleteConversation_active.
  split; [reflexivity|]. split.
  - intros c. rewrite filter_In, negb_true_iff, eqb_neq. reflexivity.
  - split; [apply find_after_filter|]. split.
    + intros H. destruct (AIAssistant.is_active id s) eqn:E; [|reflexivity].
      apply is_active_true in E. contradiction.
    + split.
      * intros H _. now apply filter_absent_id.
      * unfold AIAssistant.deleteConversation.
        now destruct (AIAssistant.is_active id s).
Qed.

Lemma delete_removes_exactly_id_witness :
  AIAssistant.activeConversationId
    (AIAssistant.deleteConversation (lit "conv-10") Sample.store)
  = AIAssistant.activeConversationId Sample.store
  /\ AIAssistant.conversations
       (AIAssistant.deleteConversation (lit "conv-99") Sample.store)
     = AIAssistant.conversations Sample.store.
Proof.
  split.
  - apply (proj1 (proj2 (proj2 (proj2
             (delete_removes_exactly_id (lit "conv-10") Sample.store))))).
    discriminate.
  - apply (proj1 (proj2 (proj2 (proj2 (proj2
             (delete_removes_exactly_id (lit "conv-99") Sample.store))))));
      [reflexivity | discriminate].
Defined.

(** X11. Pinning twice restores the store; of two renames of the same
    conversation the later one stands; pinning one conversation and renaming
    any conversation give the same store in either order. *)
Theorem pin_and_rename_compose (id id' t t' : jsstring)
  (s : AIAssistant.State) :
  AIAssistant.pinConversation id (AIAssistant.pinConversation id s) = s
  /\ AIAssistant.renameConversation id t'
       (AIAssistant.renameConversation id t s)
     = AIAssistant.renameConversation id t' s
  /\ AIAssistant.pinConversation id (AIAssistant.renameConversation id' t s)
     = AIAssistant.renameConversation id' t (AIAssistant.pinConversation id s).
Proof.
  unfold AIAssistant.pinConversation, AIAssistant.renameConversation,
    AIAssistant.set_conversations.
  destruct s as [cs a h l ts].
  cbn [AIAssistant.conversations AIAssistant.activeConversationId
       AIAssistant.isHistoryOpen AIAssistant.isLoading AIAssistant.toasts].
  split; [|split]; f_equal.
  - rewrite map_by_id_compose by reflexivity.
    apply map_by_id_identity. apply toggle_pin_twice.
  - rewrite map_by_id_compose by reflexivity. reflexivity.
  - apply map_by_id_commute; reflexivity.
Qed.

(** ** Everything a user can do to the store *)

Section ShellInvariant.
Import AIAssistant.

Lemma initial_well_formed : Shell.well_formed initial.
Proof.
  split; [constructor|]. split; simpl.
  - split; intros H; now contradiction H.
  - discriminate.
Defined.

Lemma on_item_well_formed i handler s :
  (forall c, nth_error (conversations s) i = Some c ->
             Shell.well_formed (handler (Conversation.id c) s)) ->
  Shell.well_formed s -> Shell.well_formed (Shell.on_item i handler s).
Proof.
  intros H Hs. unfold Shell.on_item.
  destruct (nth_error (conversations s) i) as [c|] eqn:E; [now apply H|].
  exact Hs.
Qed.

Lemma rename_well_formed id input s :
  Shell.well_formed s -> Shell.well_formed (ConversationHistory.rename id input s).
Proof.
  intros [Hi Hv]. unfold ConversationHistory.rename,
    ConversationHistory.handleSaveEdit. cbn [snd].
  destruct (ConversationHistory.save_guard _); [|now split].
  split.
  - now apply (apply_op_ids_truthy (OpRename _ _)).
  - now apply (apply_op_invariant (OpRename _ _)).
Qed.

Lemma perform_well_formed act s :
  Shell.well_formed s -> Shell.well_formed (Shell.perform act s).
Proof.
  intros Hs. pose proof Hs as [Hi Hv]. destruct act; cbn [Shell.perform].
  - split; [now apply createNewConversation_ids_truthy
           | apply createNewConversation_invariant].
  - apply on_item_well_formed; [|exact Hs]. intros c Hc. split.
    + exact Hi.
    + now apply (selectConversation_item_invariant i).
  - apply on_item_well_formed; [|exact Hs]. intros c _. split.
    + now apply (apply_op_ids_truthy (OpPin _)).
    + now apply (apply_op_invariant (OpPin _)).
  - apply on_item_well_formed; [|exact Hs]. intros c _. split.
    + now apply (apply_op_ids_truthy (OpDelete _)).
    + now apply (apply_op_invariant (OpDelete _)).
  - apply on_item_well_formed; [|exact Hs]. intros c _.
    now apply rename_well_formed.
  - destruct confirmed; [|exact Hs]. split; [constructor|].
    split; simpl; [split; intros H; now contradiction H | discriminate].
  - split; [now apply bootstrapEffect_ids_truthy
           | now apply bootstrapEffect_invariant].
  - pose proof (only_touches_sendMessage sched t0 t1 content o s) as H.
    destruct (activeConversationId s) as [a|] eqn:Ha.
    + destruct H as [A [I _]].
      apply (invariant_by_ids s); [congruence | exact I | exact Hs].
    + now rewrite H.
Qed.

End ShellInvariant.

(** X12. Whatever the user does, in any order (new chat, selecting,
    pinning, deleting or renaming a listed conversation, clearing the
    history, a render with its bootstrap effect, a whole send round trip
    with any outcome), a store whose ids are non-empty and that satisfies
    the active-conversation invariant stays that way; the store the
    component starts with is such a store. *)
Theorem shell_actions_preserve_invariant (acts : list Shell.Action)
  (s : AIAssistant.State) :
  AIAssistant.ids_truthy (AIAssistant.conversations s) ->
  AIAssistant.active_invariant s ->
  AIAssistant.ids_truthy
    (AIAssistant.conversations (Shell.perform_all acts s))
  /\ AIAssistant.active_invariant (Shell.perform_all acts s).
Proof.
  intros Hi Hv. assert (Hs : Shell.well_formed s) by now split. clear Hi Hv.
  unfold Shell.perform_all. revert s Hs.
  induction acts as [|act acts IH]; intros s Hs; simpl; [exact Hs|].
  apply IH. now apply perform_well_formed.
Qed.

Lemma shell_actions_preserve_invariant_witness :
  AIAssistant.ids_truthy
    (AIAssistant.conversations
       (Shell.perform_all
          [Shell.Render 1; Shell.NewChat 2;
           Shell.Send AIAssistant.TimeoutFirst 3 4 (lit "hello there")
                      (AIAssistant.FetchOk (Some (lit "Hi!")));
           Shell.SelectItem 1; Shell.DeleteItem 1; Shell.PinItem 0;
           Shell.RenameItem 0 (lit " Plans "); Shell.ClearHistory true;
           Shell.Render 9]
          AIAssistant.initial))
  /\ AIAssistant.active_invariant
       (Shell.perform_all
          [Shell.Render 1; Shell.NewChat 2;
           Shell.Send AIAssistant.TimeoutFirst 3 4 (lit "hello there")
                      (AIAssistant.FetchOk (Some (lit "Hi!")));
           Shell.SelectItem 1; Shell.DeleteItem 1; Shell.PinItem 0;
           Shell.RenameItem 0 (lit " Plans "); Shell.ClearHistory true;
           Shell.Render 9]
          AIAssistant.initial).
Proof.
  apply shell_actions_preserve_invariant;
    [exact (proj1 initial_well_formed) | exact (proj2 initial_well_formed)].
Defined.

(** ** The thread view, continued *)

Section ThreadMore.
Import ChatWindow.

Lemma navigateToMessage_mode ms d v :
  isNavigationMode (navigateToMessage ms d v) = true
  \/ navigateToMessage ms d v = v
  \/ isNavigationMode (navigateToMessage ms d v) = isNavigationMode v.
Proof.
  unfold navigateToMessage.
  destruct (Z.of_nat (List.length ms) =? 0)%Z; [right; now left|].
  destruct (currentMessageIndex v); [right; right | left]; reflexivity.
Qed.

Lemma autoScroll_after_navigate ms d v :
  (if negb (Bool.eqb (isNavigationMode v)
                     (isNavigationMode (navigateToMessage ms d v)))
   then autoScrollEffect (navigateToMessage ms d v) else []) = [].
Proof.
  unfold navigateToMessage.
  destruct (Z.of_nat (List.length ms) =? 0)%Z.
  - now rewrite Bool.eqb_reflx.
  - destruct (currentMessageIndex v); cbn [isNavigationMode].
    + now rewrite Bool.eqb_reflx.
    + unfold autoScrollEffect. cbn [isNavigationMode negb].
      now destruct (negb (Bool.eqb (isNavigationMode v) true)).
Qed.

Lemma scrollToCurrent_targets ms v x :
  In (ScrollToMessage x) (scrollToCurrentEffect ms v) ->
  isNavigationMode v = true
  /\ exists j m, currentMessageIndex v = Some j
                 /\ at_index ms j = Some m /\ Message.id m = x.
Proof.
  unfold scrollToCurrentEffect.
  destruct (currentMessageIndex v) as [j|]; [|intros []].
  destruct (isNavigationMode v); [|intros []].
  destruct (at_index ms j) as [m|] eqn:E; [|intros []].
  destruct (truthy (Message.id m)); [|intros []].
  intros [[= <-]|[]]. split; [reflexivity|]. now exists j, m.
Qed.

Lemma split_by_newline_count content :
  List.length (split newline content)
  = S (List.length (filter (N.eqb newline) content)).
Proof. apply split_by_length. Qed.

Lemma replace_bold_without_stars f s :
  includes [star; star] s = false -> replace_bold f s = s.
Proof.
  revert s. induction f as [|f IH]; intros s H; [reflexivity|].
  destruct s as [|c r]; [reflexivity|].
  cbn [replace_bold]. cbn [includes] in H.
  apply orb_false_iff in H as [Hs Hr].
  rewrite Hs. f_equal. now apply IH.
Qed.

Lemma dropWhile_split p s :
  exists pre, s = pre ++ dropWhile p s /\ Forall (fun c => p c = true) pre.
Proof.
  induction s as [|c r [pre [IH Hall]]]; simpl.
  - exists []. now split.
  - destruct (p c) eqn:E.
    + exists (c :: pre). simpl. split; [now f_equal | now constructor].
    + exists []. now split.
Qed.

End ThreadMore.

(** X13. A click on a navigation arrow never scrolls to the newest
    position; every scroll it causes goes to the message under the cursor
    after the click; and it does cause that scroll whenever the click moved
    the cursor (or entered navigation) onto an existing message with a
    non-empty id. *)
Theorem navigate_click_scrolls_to_cursor (c : ChatWindow.Component)
  (d : ChatWindow.Direction) :
  ~ In ChatWindow.ScrollToBottom
       (snd (ChatWindow.step c (ChatWindow.NavigateClicked d)))
  /\ (forall x,
        In (ChatWindow.ScrollToMessage x)
           (snd (ChatWindow.step c (ChatWindow.NavigateClicked d))) ->
        exists j m,
          ChatWindow.currentMessageIndex
            (ChatWindow.view
               (fst (ChatWindow.step c (ChatWindow.NavigateClicked d))))
          = Some j
          /\ ChatWindow.at_index (ChatWindow.messages c) j = Some m
          /\ Message.id m = x)
  /\ (forall j m,
        ChatWindow.index_changed
          (ChatWindow.currentMessageIndex (ChatWindow.view c)) (Some j)
        = true ->
        ChatWindow.view
          (fst (ChatWindow.step c (ChatWindow.NavigateClicked d)))
        = ChatWindow.mkView (Some j) true ->
        ChatWindow.at_index (ChatWindow.messages c) j = Some m ->
        Message.id m <> [] ->
        snd (ChatWindow.step c (ChatWindow.NavigateClicked d))
        = [ChatWindow.ScrollToMessage (Message.id m)]).
Proof.
  cbn [ChatWindow.step fst snd ChatWindow.view ChatWindow.messages].
  rewrite autoScroll_after_navigate. cbn [app].
  split; [|split].
  - destruct (_ || _); [apply scrollToCurrent_never_bottom | intros []].
  - intros x H. destruct (_ || _); [|destruct H].
    apply scrollToCurrent_targets in H as [_ H]. exact H.
  - intros j m Hch Hv Hm Hid. rewrite Hv.
    cbn [ChatWindow.currentMessageIndex]. rewrite Hch. cbn [orb].
    unfold ChatWindow.scrollToCurrentEffect.
    cbn [ChatWindow.currentMessageIndex ChatWindow.isNavigationMode].
    rewrite Hm. apply truthy_true in Hid. now rewrite Hid.
Qed.

Lemma navigate_click_scrolls_to_cursor_witness :
  snd (ChatWindow.step
         (ChatWindow.mkComponent [Sample.hello; Sample.hi] false
                                 ChatWindow.follow)
         (ChatWindow.NavigateClicked ChatWindow.up))
  = [ChatWindow.ScrollToMessage (Message.id Sample.hi)].
Proof.
  apply (proj2 (proj2 (navigate_click_scrolls_to_cursor
                         (ChatWindow.mkComponent [Sample.hello; Sample.hi]
                            false ChatWindow.follow) ChatWindow.up))
           1%Z Sample.hi);
    [reflexivity | reflexivity | reflexivity | discriminate].
Defined.

(** X14. With no message there is nothing to navigate: an arrow click
    changes nothing and scrolls nowhere.  Leaving navigation always returns
    the view to the follow state, scrolls to the newest position and to no
    message, and from then on a change of the messages scrolls to the newest
    position again. *)
Theorem navigation_entry_and_exit (c : ChatWindow.Component) :
  (ChatWindow.messages c = [] ->
   forall d, ChatWindow.step c (ChatWindow.NavigateClicked d) = (c, []))
  /\ ChatWindow.view (fst (ChatWindow.step c ChatWindow.ExitClicked))
     = ChatWindow.follow
  /\ In ChatWindow.ScrollToBottom
        (snd (ChatWindow.step c ChatWindow.ExitClicked))
  /\ (forall x, ~ In (ChatWindow.ScrollToMessage x)
                     (snd (ChatWindow.step c ChatWindow.ExitClicked)))
  /\ (forall ms,
        In ChatWindow.ScrollToBottom
           (snd (ChatWindow.step
                   (fst (ChatWindow.step c ChatWindow.ExitClicked))
                   (ChatWindow.MessagesChanged ms)))).
Proof.
  split; [|split; [reflexivity|split; [now left|split]]].
  - intros Hm d. destruct c as [ms ty v]. simpl in Hm. subst ms.
    cbn. rewrite Bool.eqb_reflx. cbn.
    destruct v as [[i|] nav]; cbn; [rewrite Z.eqb_refl|]; reflexivity.
  - intros x H. cbn in H. destruct H as [H|H]; [discriminate|].
    apply in_app_or in H as [H|H].
    + destruct (negb _); [|destruct H]. destruct H as [H|[]]. discriminate.
    + destruct (_ || _); destruct H.
  - intros ms. cbn. now left.
Qed.

Lemma navigation_entry_and_exit_witness :
  ChatWindow.step
    (ChatWindow.mkComponent [] true (ChatWindow.mkView None false))
    (ChatWindow.NavigateClicked ChatWindow.down)
  = (ChatWindow.mkComponent [] true (ChatWindow.mkView None false), []).
Proof.
  apply (proj1 (navigation_entry_and_exit
                  (ChatWindow.mkComponent [] true
                                          (ChatWindow.mkView None false)))).
  reflexivity.
Defined.

(** X15. The formatter is line by line: it yields one segment per line of
    the content, that is one more than the content has line feeds, so it is
    never empty; and the content is its lines joined by line feeds. *)
Theorem formatter_one_segment_per_line (content : jsstring) :
  List.length (ChatWindow.formatMessageContent content)
  = S (List.length (filter (N.eqb newline) content))
  /\ ChatWindow.formatMessageContent content
     = map ChatWindow.formatLine (split newline content)
  /\ join [newline] (split newline content) = content
  /\ Forall (fun line => filter (N.eqb newline) line = [])
            (split newline content).
Proof.
  unfold ChatWindow.formatMessageContent. rewrite length_map.
  split; [apply split_by_newline_count|]. split; [reflexivity|].
  split; [apply join_split | apply split_segments_clean].
Qed.

(** X16. A line that is no fence and no list item and holds no two
    adjacent stars is rendered as a paragraph of exactly its own text. *)
Theorem plain_line_is_its_own_paragraph (line : jsstring) :
  startsWith (lit "```") line = false ->
  startsWith [bullet] (trim line) = false ->
  startsWith [hyphen] (trim line) = false ->
  includes [star; star] line = false ->
  ChatWindow.formatLine line = ChatWindow.Paragraph line.
Proof.
  intros Hf Hb Hh Hs. unfold ChatWindow.formatLine.
  rewrite Hf, Hb, Hh. cbn [orb]. f_equal.
  now apply replace_bold_without_stars.
Qed.

Lemma plain_line_is_its_own_paragraph_witness :
  ChatWindow.formatLine (lit "2 * 3 = 6, *not* bold")
  = ChatWindow.Paragraph (lit "2 * 3 = 6, *not* bold").
Proof.
  apply plain_line_is_its_own_paragraph; reflexivity.
Defined.

(** X17. Nothing but markers is lost: a preformatted block holds the line
    without its three backticks; a bulleted item holds the line without the
    marker and the white space after it when the marker is the first code
    unit, and the whole line, marker and indentation included, when the
    marker is indented; a paragraph holds the line with its bold markup
    rewritten. *)
Theorem formatLine_accounts_for_line (line : jsstring) :
  match ChatWindow.formatLine line with
  | ChatWindow.Pre code => line = lit "```" ++ code
  | ChatWindow.Bullet text =>
      (exists marker ws,
          (marker = bullet \/ marker = hyphen)
          /\ Forall (fun c => is_ws c = true) ws
          /\ line = marker :: ws ++ text
          /\ match text with [] => True | c :: _ => is_ws c = false end)
      \/ (text = line
          /\ startsWith [bullet] line = false
          /\ startsWith [hyphen] line = false)
  | ChatWindow.Paragraph html =>
      html = ChatWindow.boldFormatted line
      /\ startsWith (lit "```") line = false
  end.
Proof.
  unfold ChatWindow.formatLine.
  destruct (startsWith (lit "```") line) eqn:Hf.
  - exact (startsWith_prefix _ _ Hf).
  - destruct (_ || _) eqn:Hb; [|now split].
    unfold ChatWindow.strip_marker. destruct line as [|c r].
    + right. repeat split.
    + destruct ((c =? bullet)%N || (c =? hyphen)%N) eqn:Hc.
      * left. destruct (dropWhile_split is_ws r) as [ws [Hr Hall]].
        exists c, ws. split; [|split; [exact Hall|split]].
        -- apply orb_true_iff in Hc as [Hc|Hc]; apply N.eqb_eq in Hc; auto.
        -- now rewrite <- Hr.
        -- destruct (dropWhile is_ws r) as [|x t] eqn:Hd; [exact I|].
           now apply (dropWhile_head is_ws r x t).
      * right. apply orb_false_iff in Hc as [Hc1 Hc2]. cbn [startsWith].
        rewrite (N.eqb_sym bullet c), (N.eqb_sym hyphen c), Hc1, Hc2.
        now repeat split.
Qed.

(** ** The compose box and voice capture, continued *)

Section ComposeMore.

Lemma submit_fires_on_nonblank isLoading g st st' text :
  InputBar.submit isLoading g st = (st', Some text) ->
  text = trim (InputBar.message st) /\ text <> [].
Proof.
  unfold InputBar.submit, InputBar.handleKeyDown, InputBar.handleSubmit.
  intros H.
  assert (Hgen : (if truthy (trim (InputBar.message st)) && negb isLoading
                  then (InputBar.mkState [] (InputBar.isListening st),
                        Some (trim (InputBar.message st)))
                  else (st, None)) = (st', Some text) ->
                 text = trim (InputBar.message st) /\ text <> []).
  { destruct (truthy (trim (InputBar.message st))) eqn:E; simpl;
      [|discriminate].
    destruct isLoading; simpl; [discriminate|].
    intros [= _ <-]. split; [reflexivity | now apply truthy_true]. }
  destruct g as [|enter shift].
  - destruct (InputBar.sendDisabled isLoading st); [discriminate|].
    now apply Hgen.
  - destruct (InputBar.textareaDisabled isLoading st); [discriminate|].
    destruct (enter && negb shift); [now apply Hgen | discriminate].
Qed.

Lemma accumulate_spec results f i :
  VoiceInput.accumulate results f i
  = (f ++ List.concat (map VoiceInput.transcript
                           (filter VoiceInput.isFinal results)),
     i ++ List.concat (map VoiceInput.transcript
                           (filter (fun r => negb (VoiceInput.isFinal r))
                                   results))).
Proof.
  revert f i. induction results as [|r rest IH]; intros f i; simpl.
  - now rewrite !app_nil_r.
  - destruct (VoiceInput.isFinal r); simpl; rewrite IH;
      now rewrite <- app_assoc.
Qed.

End ComposeMore.

(** X18. What the compose box sends is what the orchestrator stores: when
    a submit fires with [text] and a conversation is active, the send passes
    its guard and the optimistic user message carries exactly [text], the
    second trim changing nothing. *)
Theorem submitted_text_is_stored_verbatim (isLoading : bool)
  (g : InputBar.SubmitGesture) (st st' : InputBar.State) (text : jsstring)
  (t0 : Date) (s : AIAssistant.State) (a : jsstring) (c : Conversation.t) :
  InputBar.submit isLoading g st = (st', Some text) ->
  AIAssistant.activeConversationId s = Some a ->
  a <> [] ->
  AIAssistant.find_conversation a (AIAssistant.conversations s) = Some c ->
  exists s1 cl,
    AIAssistant.handleSendMessage_start t0 text s = (s1, Some cl)
    /\ Message.content (AIAssistant.cl_userMessage cl) = text
    /\ Message.status (AIAssistant.cl_userMessage cl) = Some sending
    /\ AIAssistant.cl_conversationId cl = a
    /\ AIAssistant.messages s1
       = AIAssistant.messages s ++ [AIAssistant.cl_userMessage cl].
Proof.
  intros Hsub Hact Ha Hc.
  apply submit_fires_on_nonblank in Hsub as [Htext Hne].
  assert (Htrim : trim text = text)
    by (rewrite Htext; apply trim_idempotent).
  destruct (handleSendMessage_start_cases t0 text s)
    as [[_ [H|[H|H]]]|[a' [Ha' [_ [_ Hstart]]]]]; try congruence.
  rewrite Hstart. eexists. eexists. split; [reflexivity|].
  cbn [AIAssistant.cl_userMessage AIAssistant.cl_conversationId
       Message.content Message.status].
  split; [exact Htrim|]. split; [reflexivity|].
  split; [congruence|].
  assert (a' = a) by congruence. subst a'.
  unfold AIAssistant.messages at 1, AIAssistant.activeConversation.
  cbn [AIAssistant.activeConversationId AIAssistant.set_loading
       AIAssistant.updateConversationMessages AIAssistant.set_conversations
       AIAssistant.conversations].
  rewrite Hact.
  erewrite find_map_by_id_target; [| reflexivity | exact Hc].
  reflexivity.
Qed.

Lemma submitted_text_is_stored_verbatim_witness :
  exists s1 cl,
    AIAssistant.handleSendMessage_start 100 (lit "hi") Sample.store
    = (s1, Some cl)
    /\ Message.content (AIAssistant.cl_userMessage cl) = lit "hi"
    /\ Message.status (AIAssistant.cl_userMessage cl) = Some sending
    /\ AIAssistant.cl_conversationId cl = lit "conv-20"
    /\ AIAssistant.messages s1
       = AIAssistant.messages Sample.store ++ [AIAssistant.cl_userMessage cl].
Proof.
  apply (submitted_text_is_stored_verbatim false InputBar.ClickSend
           (InputBar.mkState (lit "  hi ") false)
           (InputBar.mkState [] false) (lit "hi") 100 Sample.store
           (lit "conv-20") Sample.conv_b);
    [reflexivity | reflexivity | discriminate | reflexivity].
Defined.

(** X19. A generated audio script is sent whatever the state of the
    compose box (draft, loading flag, voice capture): its text begins with
    the fixed label, so the orchestrator never takes it for blank and starts
    a send whenever a conversation is active, also while another request is
    in flight. *)
Theorem audio_script_bypasses_guards (audioUrl script : jsstring)
  (t0 : Date) (s : AIAssistant.State) (a : jsstring) :
  AIAssistant.activeConversationId s = Some a ->
  a <> [] ->
  trim (InputBar.handleAudioGenerated audioUrl script) <> []
  /\ exists s1 cl,
      AIAssistant.handleSendMessage_start t0
        (InputBar.handleAudioGenerated audioUrl script) s
      = (s1, Some cl)
      /\ AIAssistant.isLoading s1 = true
      /\ AIAssistant.cl_content cl = lit "Generated audio script: " ++ script
      /\ Message.content (AIAssistant.cl_userMessage cl)
         = trim (lit "Generated audio script: " ++ script).
Proof.
  intros Hact Ha.
  assert (Hne : trim (InputBar.handleAudioGenerated audioUrl script) <> [])
    by (apply trim_keeps_content; reflexivity).
  split; [exact Hne|].
  destruct (handleSendMessage_start_cases t0
              (InputBar.handleAudioGenerated audioUrl script) s)
    as [[_ [H|[H|H]]]|[a' [_ [_ [_ ->]]]]]; try congruence.
  eexists. eexists. split; [reflexivity|]. repeat split.
Qed.

Lemma audio_script_bypasses_guards_witness :
  trim (InputBar.handleAudioGenerated (lit "blob:1") (lit "Welcome")) <> []
  /\ exists s1 cl,
      AIAssistant.handleSendMessage_start 100
        (InputBar.handleAudioGenerated (lit "blob:1") (lit "Welcome"))
        (AIAssistant.set_loading true Sample.store)
      = (s1, Some cl)
      /\ AIAssistant.isLoading s1 = true
      /\ AIAssistant.cl_content cl
         = lit "Generated audio script: " ++ lit "Welcome"
      /\ Message.content (AIAssistant.cl_userMessage cl)
         = trim (lit "Generated audio script: " ++ lit "Welcome").
Proof.
  apply (audio_script_bypasses_guards (lit "blob:1") (lit "Welcome") 100
           (AIAssistant.set_loading true Sample.store) (lit "conv-20"));
    [reflexivity | discriminate].
Defined.

(** X20. A recognition event hands over the final transcripts from
    [resultIndex] on, concatenated in order, and only if that text is not
    empty; interim results are shown (after the final ones) but never
    delivered.  A delivery appends the text to the draft, after one space
    when the draft is not empty, and ends the listening state; without a
    delivery the compose box is left as it is. *)
Theorem voice_result_delivery (resultIndex : nat)
  (results : list VoiceInput.SpeechResult) (st : InputBar.State) :
  let finals :=
    List.concat (map VoiceInput.transcript
                     (filter VoiceInput.isFinal (skipn resultIndex results))) in
  let interims :=
    List.concat (map VoiceInput.transcript
                     (filter (fun r => negb (VoiceInput.isFinal r))
                             (skipn resultIndex results))) in
  fst (VoiceInput.onresult resultIndex results) = finals ++ interims
  /\ (finals = [] ->
      snd (VoiceInput.onresult resultIndex results) = None
      /\ VoiceInput.deliver resultIndex results st = st)
  /\ (finals <> [] ->
      snd (VoiceInput.onresult resultIndex results) = Some finals
      /\ VoiceInput.deliver resultIndex results st
         = InputBar.mkState
             (InputBar.message st
                ++ (if truthy (InputBar.message st) then [space] else [])
                ++ finals)
             false).
Proof.
  intros finals interims.
  unfold VoiceInput.deliver, VoiceInput.onresult.
  rewrite accumulate_spec. cbn [app fst snd]. fold finals. fold interims.
  split; [reflexivity|]. split.
  - intros ->. now split.
  - intros H. apply truthy_true in H. rewrite H. now split.
Qed.

Lemma voice_result_delivery_witness :
  VoiceInput.deliver 1
    [VoiceInput.mkResult (lit "old") true;
     VoiceInput.mkResult (lit "book a") true;
     VoiceInput.mkResult (lit " tab") false;
     VoiceInput.mkResult (lit " table") true]
    (InputBar.mkState (lit "Please") true)
  = InputBar.mkState (lit "Please book a table") false.
Proof.
  apply (proj2 (proj2 (voice_result_delivery 1
           [VoiceInput.mkResult (lit "old") true;
            VoiceInput.mkResult (lit "book a") true;
            VoiceInput.mkResult (lit " tab") false;
            VoiceInput.mkResult (lit " table") true]
           (InputBar.mkState (lit "Please") true)))).
  discriminate.
Defined.

(** ** The conversation browser, continued *)

Section BrowserMore.
Import ConversationPreview.

Lemma navigateMessage_in_range selected d st :
  (0 <= currentMessageIndex st
   <= Z.max 0 (Z.of_nat (List.length selected) - 1))%Z ->
  (0 <= currentMessageIndex (navigateMessage selected d st)
   <= Z.max 0 (Z.of_nat (List.length selected) - 1))%Z
  /\ selectedConversationId (navigateMessage selected d st)
     = selectedConversationId st.
Proof.
  intros H. unfold navigateMessage.
  destruct (Z.of_nat (List.length selected) =? 0)%Z; [now split|].
  destruct d.
  - destruct (Z.ltb_spec 0 (currentMessageIndex st)); simpl; split;
      try reflexivity; lia.
  - destruct (Z.ltb_spec (currentMessageIndex st)
                (Z.of_nat (List.length selected) - 1)); simpl; split;
      try reflexivity; lia.
Qed.

Lemma at_index_in_range {A} (l : list A) (i : Z) :
  (0 <= i < Z.of_nat (List.length l))%Z ->
  exists x, nth_error l (Z.to_nat i) = Some x.
Proof.
  intros H. destruct (nth_error l (Z.to_nat i)) as [x|] eqn:E;
    [now exists x|].
  apply nth_error_None in E. lia.
Qed.

Lemma filter_partition_perm {A} (p : A -> bool) l :
  Permutation (filter p l ++ filter (fun x => negb (p x)) l) l.
Proof.
  induction l as [|x l IH]; simpl; [constructor|].
  destruct (p x); simpl.
  - now constructor.
  - apply Permutation_sym, Permutation_cons_app, Permutation_sym. exact IH.
Qed.

End BrowserMore.

(** X21. The drill-down cursor never leaves the selected conversation's
    messages: from a cursor within [0, length-1] (0 when there is no
    message) any sequence of steps keeps it there and keeps the selection,
    so a non-empty conversation always has a current message to show; a
    step up at 0, a step down at the last message and any step on an empty
    conversation change nothing. *)
Theorem preview_cursor_stays_in_range (selected : list Message.t)
  (ds : list ConversationPreview.Direction) (st : ConversationPreview.State) :
  (0 <= ConversationPreview.currentMessageIndex st
   <= Z.max 0 (Z.of_nat (List.length selected) - 1))%Z ->
  (0 <= ConversationPreview.currentMessageIndex
          (ConversationPreview.navigate_all selected ds st)
   <= Z.max 0 (Z.of_nat (List.length selected) - 1))%Z
  /\ ConversationPreview.selectedConversationId
       (ConversationPreview.navigate_all selected ds st)
     = ConversationPreview.selectedConversationId st
  /\ (selected <> [] ->
      exists m,
        ConversationPreview.currentMessage selected
          (ConversationPreview.navigate_all selected ds st) = Some m)
  /\ (ConversationPreview.currentMessageIndex st = 0%Z ->
      ConversationPreview.navigateMessage selected ConversationPreview.up st
      = st)
  /\ (ConversationPreview.currentMessageIndex st
      = (Z.of_nat (List.length selected) - 1)%Z ->
      ConversationPreview.navigateMessage selected ConversationPreview.down st
      = st)
  /\ (selected = [] ->
      ConversationPreview.navigate_all selected ds st = st).
Proof.
  intros Hr.
  assert (Hall : forall ds st,
             (0 <= ConversationPreview.currentMessageIndex st
              <= Z.max 0 (Z.of_nat (List.length selected) - 1))%Z ->
             (0 <= ConversationPreview.currentMessageIndex
                     (ConversationPreview.navigate_all selected ds st)
              <= Z.max 0 (Z.of_nat (List.length selected) - 1))%Z
             /\ ConversationPreview.selectedConversationId
                  (ConversationPreview.navigate_all selected ds st)
                = ConversationPreview.selectedConversationId st).
  { clear. unfold ConversationPreview.navigate_all.
    induction ds as [|d ds IH]; intros st Hr; simpl; [now split|].
    destruct (navigateMessage_in_range selected d st Hr) as [H1 H2].
    destruct (IH _ H1) as [H3 H4]. split; [exact H3 | congruence]. }
  destruct (Hall ds st Hr) as [H1 H2].
  split; [exact H1|]. split; [exact H2|]. split; [|split; [|split]].
  - intros Hne. unfold ConversationPreview.currentMessage, ChatWindow.at_index.
    assert (Hlen : (0 < List.length selected)%nat)
      by (destruct selected; [contradiction | simpl; lia]).
    destruct (Z.ltb_spec
                (ConversationPreview.currentMessageIndex
                   (ConversationPreview.navigate_all selected ds st)) 0);
      [lia|].
    apply at_index_in_range. lia.
  - intros H0. unfold ConversationPreview.navigateMessage.
    destruct (_ =? 0)%Z; [reflexivity|]. now rewrite H0.
  - intros Hl. unfold ConversationPreview.navigateMessage.
    destruct (_ =? 0)%Z; [reflexivity|]. rewrite Hl.
    now rewrite Z.ltb_irrefl.
  - intros ->. clear. unfold ConversationPreview.navigate_all.
    revert st. induction ds as [|d ds IH]; intros st; simpl; [reflexivity|].
    apply IH.
Qed.

Lemma preview_cursor_stays_in_range_witness :
  exists m,
    ConversationPreview.currentMessage [Sample.hello; Sample.hi]
      (ConversationPreview.navigate_all [Sample.hello; Sample.hi]
         [ConversationPreview.down; ConversationPreview.down;
          ConversationPreview.up; ConversationPreview.up;
          ConversationPreview.up; ConversationPreview.down]
         (ConversationPreview.mkState (Some (lit "conv-10")) 0))
    = Some m.
Proof.
  apply (proj1 (proj2 (proj2
           (preview_cursor_stays_in_range [Sample.hello; Sample.hi]
              [ConversationPreview.down; ConversationPreview.down;
               ConversationPreview.up; ConversationPreview.up;
               ConversationPreview.up; ConversationPreview.down]
              (ConversationPreview.mkState (Some (lit "conv-10")) 0)
              ltac:(simpl; lia))))).
  discriminate.
Defined.

(** X22. On a cursor that is in range the drill-down view and the thread
    view step alike: the browser's guarded step and the thread's clamped
    step give the same next index. *)
Theorem preview_and_thread_cursors_agree (ms : list Message.t) (i : Z)
  (sel : option jsstring) (b : bool) (d : ConversationPreview.Direction) :
  (0 <= i <= Z.of_nat (List.length ms) - 1)%Z ->
  ChatWindow.currentMessageIndex
    (ChatWindow.navigateToMessage ms
       match d with
       | ConversationPreview.up => ChatWindow.up
       | ConversationPreview.down => ChatWindow.down
       end
       (ChatWindow.mkView (Some i) b))
  = Some (ConversationPreview.currentMessageIndex
            (ConversationPreview.navigateMessage ms d
               (ConversationPreview.mkState sel i))).
Proof.
  intros H. unfold ChatWindow.navigateToMessage,
    ConversationPreview.navigateMessage.
  cbn [ChatWindow.currentMessageIndex ConversationPreview.currentMessageIndex
       ConversationPreview.selectedConversationId
       ChatWindow.isNavigationMode].
  destruct (Z.eqb_spec (Z.of_nat (List.length ms)) 0); [lia|].
  destruct d; cbn [ChatWindow.currentMessageIndex].
  - destruct (Z.ltb_spec 0 i); cbn; f_equal; lia.
  - destruct (Z.ltb_spec i (Z.of_nat (List.length ms) - 1)); cbn; f_equal;
      lia.
Qed.

Lemma preview_and_thread_cursors_agree_witness :
  ChatWindow.currentMessageIndex
    (ChatWindow.navigateToMessage [Sample.hello; Sample.hi] ChatWindow.down
       (ChatWindow.mkView (Some 1%Z) true))
  = Some (ConversationPreview.currentMessageIndex
            (ConversationPreview.navigateMessage [Sample.hello; Sample.hi]
               ConversationPreview.down
               (ConversationPreview.mkState None 1))).
Proof.
  apply (preview_and_thread_cursors_agree [Sample.hello; Sample.hi] 1 None
           true ConversationPreview.down).
  simpl. lia.
Defined.

(** X23. Opening the details of a conversation other than the selected one
    selects it with the cursor on its first message: what is shown is its
    message list, the current message is the first of them (none when the
    list is empty) and no context precedes it.  Asking for the details of
    the selected conversation again goes back to the list. *)
Theorem view_details_starts_at_first_message (id : jsstring)
  (st : ConversationPreview.State) (conversations : list Conversation.t)
  (c : Conversation.t) :
  AIAssistant.find_conversation id conversations = Some c ->
  (ConversationPreview.selectedConversationId st <> Some id ->
   ConversationPreview.handleSelectConversation id st
   = ConversationPreview.mkState (Some id) 0
   /\ ConversationPreview.selectedMessages conversations
        (ConversationPreview.handleSelectConversation id st)
      = Conversation.messages c
   /\ ConversationPreview.currentMessage (Conversation.messages c)
        (ConversationPreview.handleSelectConversation id st)
      = hd_error (Conversation.messages c)
   /\ ConversationPreview.contextMessages (Conversation.messages c)
        (ConversationPreview.handleSelectConversation id st)
      = [])
  /\ (ConversationPreview.selectedConversationId st = Some id ->
      ConversationPreview.selectedConversationId
        (ConversationPreview.handleSelectConversation id st) = None
      /\ ConversationPreview.selectedMessages conversations
           (ConversationPreview.handleSelectConversation id st) = []).
Proof.
  intros Hc. unfold ConversationPreview.handleSelectConversation,
    ConversationPreview.is_selected.
  split.
  - intros Hsel.
    assert (E : match ConversationPreview.selectedConversationId st with
                | Some x => JS.eqb x id
                | None => false
                end = false).
    { destruct (ConversationPreview.selectedConversationId st) as [x|];
        [|reflexivity].
      apply eqb_neq. congruence. }
    rewrite E. split; [reflexivity|]. split.
    + unfold ConversationPreview.selectedMessages. simpl. now rewrite Hc.
    + split.
      * unfold ConversationPreview.currentMessage. simpl.
        now destruct (Conversation.messages c).
      * unfold ConversationPreview.contextMessages, array_slice.
        cbn [ConversationPreview.currentMessageIndex].
        change (Z.max 0 (0 - 2)) with 0%Z. cbn [Z.ltb Z.compare].
        rewrite Z.sub_diag. reflexivity.
  - intros Hsel. rewrite Hsel, eqb_refl. now split.
Qed.

Lemma view_details_starts_at_first_message_witness :
  ConversationPreview.currentMessage (Conversation.messages Sample.conv_a)
    (ConversationPreview.handleSelectConversation (lit "conv-10")
       (ConversationPreview.mkState (Some (lit "conv-20")) 7))
  = hd_error (Conversation.messages Sample.conv_a).
Proof.
  apply (proj1 (view_details_starts_at_first_message (lit "conv-10")
                  (ConversationPreview.mkState (Some (lit "conv-20")) 7)
                  (AIAssistant.conversations Sample.store) Sample.conv_a
                  eq_refl)).
  discriminate.
Defined.

(** X24. The context shown under the current message is made of the
    messages right before it, in order, at most two of them: with the
    cursor on message [i] the list reads, somewhere, context then current
    message, and the context has [min i 2] entries. *)
Theorem context_messages_precede_current (selected : list Message.t)
  (st : ConversationPreview.State) (m : Message.t) :
  ConversationPreview.currentMessage selected st = Some m ->
  exists before after,
    selected
    = before ++ ConversationPreview.contextMessages selected st
        ++ m :: after
    /\ List.length (ConversationPreview.contextMessages selected st)
       = Z.to_nat (Z.min (ConversationPreview.currentMessageIndex st) 2)
    /\ (List.length before
        + List.length (ConversationPreview.contextMessages selected st)
        = Z.to_nat (ConversationPreview.currentMessageIndex st))%nat.
Proof.
  unfold ConversationPreview.currentMessage, ChatWindow.at_index,
    ConversationPreview.contextMessages, array_slice.
  set (i := ConversationPreview.currentMessageIndex st).
  destruct (Z.ltb_spec i 0) as [Hneg|Hpos]; [discriminate|].
  intros Hn. pose proof Hn as Hsplit.
  apply nth_error_split in Hsplit as [l1 [l2 [-> Hl1]]].
  assert (Hlen : (Z.to_nat i < List.length (l1 ++ m :: l2))%nat)
    by (apply nth_error_Some; congruence).
  destruct (Z.ltb_spec (Z.max 0 (i - 2)) 0) as [H|_]; [lia|].
  set (n := Z.of_nat (List.length (l1 ++ m :: l2))) in *.
  replace (Z.min (Z.max 0 (i - 2)) n) with (Z.max 0 (i - 2)) by lia.
  replace (Z.min i n) with i by lia.
  set (k := Z.to_nat (Z.max 0 (i - 2))).
  replace (Z.to_nat (Z.max (i - Z.max 0 (i - 2)) 0))
    with (List.length l1 - k)%nat by lia.
  assert (Hk : (k <= List.length l1)%nat) by lia.
  rewrite skipn_app. replace (k - List.length l1)%nat with 0%nat by lia.
  cbn [skipn]. rewrite firstn_app, length_skipn.
  replace (List.length l1 - k - (List.length l1 - k))%nat with 0%nat by lia.
  cbn [firstn]. rewrite app_nil_r.
  rewrite firstn_all2 by (rewrite length_skipn; lia).
  exists (firstn k l1), l2. split; [|split].
  - now rewrite app_assoc, firstn_skipn.
  - rewrite length_skipn. lia.
  - rewrite length_firstn, length_skipn. lia.
Qed.

Lemma context_messages_precede_current_witness :
  exists before after,
    [Sample.hello; Sample.hi; Sample.hello; Sample.hi]
    = before
        ++ ConversationPreview.contextMessages
             [Sample.hello; Sample.hi; Sample.hello; Sample.hi]
             (ConversationPreview.mkState None 3)
        ++ Sample.hi :: after
    /\ List.length
         (ConversationPreview.contextMessages
            [Sample.hello; Sample.hi; Sample.hello; Sample.hi]
            (ConversationPreview.mkState None 3))
       = Z.to_nat
           (Z.min (ConversationPreview.currentMessageIndex
                     (ConversationPreview.mkState None 3)) 2)
    /\ (List.length before
        + List.length
            (ConversationPreview.contextMessages
               [Sample.hello; Sample.hi; Sample.hello; Sample.hi]
               (ConversationPreview.mkState None 3))
        = Z.to_nat (ConversationPreview.currentMessageIndex
                      (ConversationPreview.mkState None 3)))%nat.
Proof.
  apply (context_messages_precede_current
           [Sample.hello; Sample.hi; Sample.hello; Sample.hi]
           (ConversationPreview.mkState None 3) Sample.hi).
  reflexivity.
Defined.

(** X25. A context message is shown whole when it has at most 200 code
    units; a longer one is cut to its first 200 followed by an ellipsis, so
    what is shown never exceeds 203 code units and always starts like the
    message. *)
Theorem context_truncation (content : jsstring) :
  ((List.length content <= 200)%nat ->
   ConversationPreview.formatMessageContent content = content)
  /\ ((200 < List.length content)%nat ->
      ConversationPreview.formatMessageContent content
      = firstn 200 content ++ lit "..."
      /\ List.length (ConversationPreview.formatMessageContent content)
         = 203%nat)
  /\ (List.length (ConversationPreview.formatMessageContent content)
      <= 203)%nat
  /\ firstn 200 (ConversationPreview.formatMessageContent content)
     = firstn 200 content.
Proof.
  unfold ConversationPreview.formatMessageContent, substring0.
  destruct (Nat.ltb_spec 200 (List.length content)) as [H|H].
  - assert (Hl : List.length (firstn 200 content ++ lit "...") = 203%nat).
    { rewrite length_app, length_firstn.
      cbn [List.length lit map list_ascii_of_string]. lia. }
    split; [intros; lia|]. split; [now split|]. split; [lia|].
    rewrite firstn_app, firstn_firstn, length_firstn, Nat.min_id.
    replace (200 - Nat.min 200 (List.length content))%nat with 0%nat by lia.
    now rewrite firstn_O, app_nil_r.
  - split; [reflexivity|]. split; [intros; lia|]. split; [lia | reflexivity].
Qed.

Lemma context_truncation_witness :
  ConversationPreview.formatMessageContent (lit "short") = lit "short".
Proof.
  apply (proj1 (context_truncation (lit "short"))). simpl. lia.
Defined.

(** X26. The two groups of the list split the conversations that match
    the search: a matching conversation is listed under Pinned exactly when
    it is pinned and under the others exactly when it is not, nothing else
    is listed, both groups keep the store's order, and together they are the
    matching conversations, each as often as the store holds it. *)
Theorem search_groups_partition (toLowerCase : jsstring -> jsstring)
  (searchQuery : jsstring) (conversations : list Conversation.t) :
  (forall c,
      In c (ConversationList.pinnedConversations toLowerCase searchQuery
              conversations)
      <-> In c conversations
          /\ ConversationList.matches toLowerCase searchQuery c = true
          /\ Conversation.isPinned c = true)
  /\ (forall c,
        In c (ConversationList.regularConversations toLowerCase searchQuery
                conversations)
        <-> In c conversations
            /\ ConversationList.matches toLowerCase searchQuery c = true
            /\ Conversation.isPinned c = false)
  /\ Permutation
       (ConversationList.pinnedConversations toLowerCase searchQuery
          conversations
        ++ ConversationList.regularConversations toLowerCase searchQuery
             conversations)
       (ConversationList.filteredConversations toLowerCase searchQuery
          conversations)
  /\ (List.length (ConversationList.pinnedConversations toLowerCase
                     searchQuery conversations)
      + List.length (ConversationList.regularConversations toLowerCase
                       searchQuery conversations)
      <= List.length conversations)%nat
  /\ ConversationList.pinnedConversations toLowerCase searchQuery
       conversations
     = filter (fun c => ConversationList.matches toLowerCase searchQuery c
                        && Conversation.isPinned c) conversations
  /\ (toLowerCase [] = [] ->
      ConversationList.filteredConversations toLowerCase [] conversations
      = conversations).
Proof.
  unfold ConversationList.pinnedConversations,
    ConversationList.regularConversations,
    ConversationList.filteredConversations.
  split; [|split; [|split; [|split; [|split]]]].
  - intros c. rewrite !filter_In. tauto.
  - intros c. rewrite !filter_In, negb_true_iff. tauto.
  - apply filter_partition_perm.
  - rewrite <- length_app.
    rewrite (Permutation_length (filter_partition_perm _ _)).
    apply filter_length_le.
  - induction conversations as [|c cs IH]; simpl; [reflexivity|].
    destruct (ConversationList.matches toLowerCase searchQuery c); simpl.
    + destruct (Conversation.isPinned c); now rewrite IH.
    + exact IH.
  - intros H0. apply filter_all_true. apply Forall_forall. intros c _.
    unfold ConversationList.matches. now rewrite H0, includes_nil.
Qed.

Lemma search_groups_partition_witness :
  ConversationList.filteredConversations (fun x => x) []
    (AIAssistant.conversations Sample.store)
  = AIAssistant.conversations Sample.store.
Proof.
  apply (proj2 (proj2 (proj2 (proj2 (proj2
           (search_groups_partition (fun x => x) []
              (AIAssistant.conversations Sample.store))))))).
  reflexivity.
Defined.

(** X27. Sends add up: after two round trips in a row on the same active
    conversation, each with the timer before the response and each answered,
    the conversation holds its earlier messages followed by the first
    exchange and then the second, four messages more in all. *)
Theorem consecutive_sends_accumulate (s : AIAssistant.State) (a : jsstring)
  (c : Conversation.t) (content1 content2 : jsstring) (t0 t1 t2 t3 : Date)
  (o1 o2 : AIAssistant.FetchOutcome) (r1 r2 : jsstring) :
  AIAssistant.activeConversationId s = Some a ->
  a <> [] ->
  AIAssistant.find_conversation a (AIAssistant.conversations s) = Some c ->
  trim content1 <> [] ->
  trim content2 <> [] ->
  AIAssistant.callAI o1 = Some r1 ->
  AIAssistant.callAI o2 = Some r2 ->
  exists c',
    AIAssistant.find_conversation a
      (AIAssistant.conversations
         (AIAssistant.sendMessage AIAssistant.TimeoutFirst t2 t3 content2 o2
            (AIAssistant.sendMessage AIAssistant.TimeoutFirst t0 t1 content1
               o1 s)))
    = Some c'
    /\ Conversation.messages c'
       = Conversation.messages c
           ++ [Message.mk (lit "user-" ++ of_N t0) user (trim content1) t0
                          None None None (Some sent);
               Message.mk (lit "assistant-" ++ of_N t1) assistant r1 t1
                          None None None None;
               Message.mk (lit "user-" ++ of_N t2) user (trim content2) t2
                          None None None (Some sent);
               Message.mk (lit "assistant-" ++ of_N t3) assistant r2 t3
                          None None None None].
Proof.
  intros Hact Ha Hfind H1 H2 Ho1 Ho2.
  rewrite !sendMessage_timeout_first.
  destruct (persisted_at_success s a c content1 t0 t1 Hact Ha Hfind H1
              true o1 r1 Ho1) as [c1 [Hc1 [Hm1 _]]].
  assert (Hact1 : AIAssistant.activeConversationId
                    (AIAssistant.sendMessage_at_settle true t0 t1 content1
                       o1 s) = Some a).
  { rewrite <- sendMessage_timeout_first.
    pose proof (only_touches_sendMessage AIAssistant.TimeoutFirst t0 t1
                  content1 o1 s) as H.
    rewrite Hact in H. destruct H as [A _]. congruence. }
  destruct (persisted_at_success _ a c1 content2 t2 t3 Hact1 Ha Hc1 H2
              true o2 r2 Ho2) as [c2 [Hc2 [Hm2 _]]].
  exists c2. split; [exact Hc2|].
  rewrite Hm2, Hm1, <- app_assoc. reflexivity.
Qed.

Lemma consecutive_sends_accumulate_witness :
  exists c',
    AIAssistant.find_conversation (lit "default")
      (AIAssistant.conversations
         (AIAssistant.sendMessage AIAssistant.TimeoutFirst 300 400
            (lit "and you?") (AIAssistant.FetchOk None)
            (AIAssistant.sendMessage AIAssistant.TimeoutFirst 100 200
               (lit "hello") (AIAssistant.FetchOk (Some (lit "Hi!")))
               Sample.single)))
    = Some c'
    /\ Conversation.messages c'
       = Conversation.messages Sample.conv_c
           ++ [Message.mk (lit "user-" ++ of_N 100) user (trim (lit "hello"))
                          100 None None None (Some sent);
               Message.mk (lit "assistant-" ++ of_N 200) assistant (lit "Hi!")
                          200 None None None None;
               Message.mk (lit "user-" ++ of_N 300) user
                          (trim (lit "and you?")) 300 None None None
                          (Some sent);
               Message.mk (lit "assistant-" ++ of_N 400) assistant
                          (lit "Sorry, I could not generate a response.") 400
                          None None None None].
Proof.
  apply (consecutive_sends_accumulate Sample.single (lit "default")
           Sample.conv_c (lit "hello") (lit "and you?") 100 200 300 400
           (AIAssistant.FetchOk (Some (lit "Hi!"))) (AIAssistant.FetchOk None)
           (lit "Hi!") (lit "Sorry, I could not generate a response."));
    [reflexivity | discriminate | reflexivity | discriminate | discriminate
    | reflexivity | reflexivity].
Defined.
